(** * Screenshot Scheduler Pro: task store, cron schedules and the capture lock

    A shallow embedding of [main.py]: the [ScreenshotTask] dataclass and its
    dictionary form, [ConfigManager]'s task list, the scheduling methods of
    [App] ([get_cron_schedule], [add_task], [remove_task], [schedule_task],
    [load_scheduled_tasks]) and the two guarded capture closures
    ([capture_wrapper] of [schedule_task], [capture] of [run_capture]) around
    the single [threading.Lock] of [ScreenshotCapture].

    Python strings are modelled as [string] (code points below 256), Python
    integers as [Z], dictionaries as [gmap string _], exceptions as a sum
    type threaded through a small state-and-error monad. *)

From Stdlib Require Import ZArith Ascii String DecimalString.
From stdpp Require Import gmap strings list fin_maps.

Local Open Scope Z_scope.

(** ** Python values and exceptions *)

Inductive exn : Type :=
| ValueError (msg : string)
| TypeError (msg : string)
| RuntimeError (msg : string)
| OtherError (msg : string).

Definition exn_message (e : exn) : string :=
  match e with
  | ValueError m | TypeError m | RuntimeError m | OtherError m => m
  end.

(** [str.isspace] on one character: TAB..CR, FS..US, SPACE, NEL, NBSP. *)
Definition isspace (c : ascii) : bool :=
  let n := N_of_ascii c in
  ((9 <=? n) && (n <=? 13) || (28 <=? n) && (n <=? 32)
   || (n =? 133) || (n =? 160))%N.

Fixpoint lstrip (s : string) : string :=
  match s with
  | String c s' => if isspace c then lstrip s' else s
  | EmptyString => EmptyString
  end.

(** [str.strip()] *)
Definition strip (s : string) : string :=
  String.rev (lstrip (String.rev (lstrip s))).

Definition flush (acc : string) : list string :=
  match acc with
  | EmptyString => []
  | _ => [String.rev acc]
  end.

Fixpoint split_from (acc : string) (s : string) : list string :=
  match s with
  | EmptyString => flush acc
  | String c s' =>
      if isspace c then flush acc ++ split_from EmptyString s'
      else split_from (String c acc) s'
  end.

(** [str.split()] without arguments: the maximal runs of non-whitespace. *)
Definition split (s : string) : list string := split_from EmptyString s.

Definition digit_of (c : ascii) : option Z :=
  let n := N_of_ascii c in
  if ((48 <=? n) && (n <=? 57))%N then Some (Z.of_N n - 48) else None.

(** The digit part of an integer literal: decimal digits, single
    underscores allowed between two digits. *)
Fixpoint int_digits (acc : Z) (after_digit : bool) (s : string) : option Z :=
  match s with
  | EmptyString => if after_digit then Some acc else None
  | String c s' =>
      if Ascii.eqb c "_"%char
      then (if after_digit then int_digits acc false s' else None)
      else match digit_of c with
           | Some d => int_digits (10 * acc + d) true s'
           | None => None
           end
  end.

(** [int(s)] for a string argument, base 10: surrounding whitespace, an
    optional sign, then the digits.  (The interpreter's limit on the number
    of digits is not modelled; beyond it [int] raises [ValueError] too.) *)
Definition int (s : string) : exn + Z :=
  let t := strip s in
  let '(sign, body) :=
    match t with
    | String "-"%char r => (-1, r)
    | String "+"%char r => (1, r)
    | _ => (1, t)
    end in
  match int_digits 0 false body with
  | Some n => inr (sign * n)
  | None => inl (ValueError ("invalid literal for int() with base 10: " +:+ s))
  end.

(** [str(n)] / [f"{n}"] for an integer. *)
Definition str_of_int (n : Z) : string := NilZero.string_of_int (Z.to_int n).

Definition str_of_bool (b : bool) : string := if b then "True" else "False".

(** ** [ScreenshotTask] *)

Record ScreenshotTask : Type := mkTask {
  id : string;
  url : string;
  cron_schedule : string;
  output_path : string;
  width : Z;
  height : Z;
  full_page : bool;
  enabled : bool
}.

Global Instance ScreenshotTask_eq_dec : EqDecision ScreenshotTask.
Proof. solve_decision. Defined.

(** The values a task dictionary holds (as JSON stores them). *)
Inductive value : Type :=
| VStr (s : string)
| VInt (n : Z)
| VBool (b : bool).

Abbreviation dict := (gmap string value).

(** [asdict(self)]: one entry per dataclass field. *)
Definition to_dict (t : ScreenshotTask) : dict :=
  <["id" := VStr (id t)]>
  (<["url" := VStr (url t)]>
  (<["cron_schedule" := VStr (cron_schedule t)]>
  (<["output_path" := VStr (output_path t)]>
  (<["width" := VInt (width t)]>
  (<["height" := VInt (height t)]>
  (<["full_page" := VBool (full_page t)]>
  (<["enabled" := VBool (enabled t)]> ∅))))))).

Definition field_names : gset string :=
  {[ "id"; "url"; "cron_schedule"; "output_path";
     "width"; "height"; "full_page"; "enabled" ]}.

Definition missing (k : string) : exn :=
  TypeError ("__init__() missing 1 required positional argument: " +:+ k).

Definition ill_typed (k : string) : exn :=
  TypeError ("field outside its annotated type: " +:+ k).

(** Binding of one keyword argument of the call [cls] makes on the entries
    of [data] (keyword unpacking): the entry
    of [data], else the field's default, else [TypeError].  The fields carry
    their annotated types ([str], [int], [bool]); an entry of another type
    has no image in the record and is reported as a [TypeError] as well
    (the program checks no types there: it builds the object around the
    entry as it is). *)
Definition arg_str (data : dict) (k : string) : exn + string :=
  match data !! k with
  | Some (VStr s) => inr s
  | Some _ => inl (ill_typed k)
  | None => inl (missing k)
  end.

Definition arg_int (data : dict) (k : string) (default : Z) : exn + Z :=
  match data !! k with
  | Some (VInt n) => inr n
  | Some _ => inl (ill_typed k)
  | None => inr default
  end.

Definition arg_bool (data : dict) (k : string) (default : bool) : exn + bool :=
  match data !! k with
  | Some (VBool b) => inr b
  | Some _ => inl (ill_typed k)
  | None => inr default
  end.

Definition ebind {A B : Type} (m : exn + A) (f : A → exn + B) : exn + B :=
  match m with
  | inl e => inl e
  | inr a => f a
  end.

Notation "'let?' x := m 'in' k" := (ebind m (fun x => k))
  (at level 10, x name, m at level 100, k at level 200).

(** [from_dict]: [cls] called on the unpacked [data]; every key must name a field, the four fields without a
    default must be present. *)
Definition from_dict (data : dict) : exn + ScreenshotTask :=
  if decide (dom data ⊆ field_names) then
    let? i := arg_str data "id" in
    let? u := arg_str data "url" in
    let? c := arg_str data "cron_schedule" in
    let? o := arg_str data "output_path" in
    let? w := arg_int data "width" 1920 in
    let? h := arg_int data "height" 1080 in
    let? f := arg_bool data "full_page" true in
    let? e := arg_bool data "enabled" true in
    inr (mkTask i u c o w h f e)
  else inl (TypeError "__init__() got an unexpected keyword argument").

(** [[f(x) for x in l]] where [f] may raise: the first exception wins. *)
Fixpoint emapM {A B : Type} (f : A → exn + B) (l : list A) : exn + list B :=
  match l with
  | [] => inr []
  | x :: l' =>
      let? y := f x in
      let? ys := emapM f l' in
      inr (y :: ys)
  end.

(** ** The application state *)

(** The arguments [schedule_task] hands to [CronTrigger]: the five
    whitespace-separated fields of the cron string, as strings. *)
Record Trigger : Type := mkTrigger {
  minute : string;
  hour : string;
  day : string;
  month : string;
  day_of_week : string
}.

(** A job of the background scheduler: the [capture_wrapper] closure (it
    captures [task]) and its trigger, stored under [id=task.id]. *)
Record Job : Type := mkJob {
  job_task : ScreenshotTask;
  job_trigger : Trigger
}.

(** The widgets [add_task] and [get_cron_schedule] read. *)
Record Form : Type := mkForm {
  url_entry : string;
  schedule_option : string;
  hour_spinbox : string;
  minute_spinbox : string;
  width_entry : string;
  height_entry : string;
  output_path_entry : string;
  full_page_var : bool
}.

Record World : Type := mkWorld {
  config_tasks : list dict;        (* self.config_manager.config["tasks"] *)
  disk_tasks : list dict;          (* the "tasks" entry of config.json *)
  jobs : gmap string Job;          (* job store of self.scheduler *)
  capture_lock : bool;             (* self.capture._capture_lock is locked *)
  form : Form;
  home : string;                   (* Path.home() *)
  stdout : list string;            (* lines printed, oldest first *)
  dialogs : list string            (* show_error / show_success messages *)
}.

Definition set_config_tasks (ts : list dict) (w : World) : World :=
  mkWorld ts (disk_tasks w) (jobs w) (capture_lock w) (form w) (home w)
          (stdout w) (dialogs w).
Definition set_disk_tasks (ts : list dict) (w : World) : World :=
  mkWorld (config_tasks w) ts (jobs w) (capture_lock w) (form w) (home w)
          (stdout w) (dialogs w).
Definition set_jobs (js : gmap string Job) (w : World) : World :=
  mkWorld (config_tasks w) (disk_tasks w) js (capture_lock w) (form w) (home w)
          (stdout w) (dialogs w).
Definition set_capture_lock (b : bool) (w : World) : World :=
  mkWorld (config_tasks w) (disk_tasks w) (jobs w) b (form w) (home w)
          (stdout w) (dialogs w).
Definition set_form (f : Form) (w : World) : World :=
  mkWorld (config_tasks w) (disk_tasks w) (jobs w) (capture_lock w) f (home w)
          (stdout w) (dialogs w).
Definition set_stdout (l : list string) (w : World) : World :=
  mkWorld (config_tasks w) (disk_tasks w) (jobs w) (capture_lock w) (form w)
          (home w) l (dialogs w).
Definition set_dialogs (l : list string) (w : World) : World :=
  mkWorld (config_tasks w) (disk_tasks w) (jobs w) (capture_lock w) (form w)
          (home w) (stdout w) l.

(** ** A state-and-exception monad for the methods *)

Definition M (A : Type) : Type := World → (exn + A) * World.

Definition ret {A : Type} (a : A) : M A := λ w, (inr a, w).

Definition bind {A B : Type} (m : M A) (k : A → M B) : M B :=
  λ w, match m w with
       | (inr a, w') => k a w'
       | (inl e, w') => (inl e, w')
       end.

Definition raise {A : Type} (e : exn) : M A := λ w, (inl e, w).

Definition gets {A : Type} (f : World → A) : M A := λ w, (inr (f w), w).

Definition modify (f : World → World) : M unit := λ w, (inr tt, f w).

(** Lift a computation that can only raise. *)
Definition lift {A : Type} (r : exn + A) : M A := λ w, (r, w).

(** [try: body / except Exception as e: handler(e)] *)
Definition try_except {A : Type} (body : M A) (handler : exn → M A) : M A :=
  λ w, match body w with
       | (inr a, w') => (inr a, w')
       | (inl e, w') => handler e w'
       end.

(** [try: body / finally: fin]: [fin] always runs; an exception of [fin]
    replaces the outcome of [body]. *)
Definition try_finally {A : Type} (body : M A) (fin : M unit) : M A :=
  λ w, match body w with
       | (r, w') =>
           match fin w' with
           | (inr _, w'') => (r, w'')
           | (inl e, w'') => (inl e, w'')
           end
       end.

Notation "x <- m ;; k" := (bind m (fun x => k))
  (at level 100, m at next level, right associativity).
Notation "m ;; k" := (bind m (fun _ => k))
  (at level 100, right associativity).

(** [for x in l: body(x)] *)
Fixpoint for_each {A : Type} (l : list A) (body : A → M unit) : M unit :=
  match l with
  | [] => ret tt
  | x :: l' => body x ;; for_each l' body
  end.

Definition print (line : string) : M unit :=
  modify (λ w, set_stdout (stdout w ++ [line]) w).

(** ** [ConfigManager] *)

Module ConfigManager.

(** [json.dump(self.config, f)], as far as the task list goes. *)
Definition save_config : M unit :=
  modify (λ w, set_disk_tasks (config_tasks w) w).

Definition get_tasks : M (list ScreenshotTask) :=
  data <- gets config_tasks ;;
  lift (emapM from_dict data).

Definition add_task (task : ScreenshotTask) : M unit :=
  tasks <- get_tasks ;;
  let tasks := tasks ++ [task] in
  modify (set_config_tasks (to_dict <$> tasks)) ;;
  save_config.

Definition remove_task (task_id : string) : M unit :=
  tasks <- get_tasks ;;
  let tasks := filter (λ t, id t ≠ task_id) tasks in
  modify (set_config_tasks (to_dict <$> tasks)) ;;
  save_config.

(** The loop of [update_task]: the first index whose task has the id of
    [task] is overwritten, then [break]. *)
Definition replace_task (task : ScreenshotTask) (tasks : list ScreenshotTask)
  : list ScreenshotTask :=
  match list_find (λ t, id t = id task) tasks with
  | Some (i, _) => <[i := task]> tasks
  | None => tasks
  end.

Definition update_task (task : ScreenshotTask) : M unit :=
  tasks <- get_tasks ;;
  let tasks := replace_task task tasks in
  modify (set_config_tasks (to_dict <$> tasks)) ;;
  save_config.

End ConfigManager.

(** ** The capture lock and the guarded action *)

(** [threading.Lock.acquire(blocking=False)]: takes a free lock and answers
    [True]; answers [False] at once when the lock is held. *)
Definition acquire_nonblocking : M bool :=
  λ w, if capture_lock w then (inr false, w)
       else (inr true, set_capture_lock true w).

(** [threading.Lock.release()]: frees a held lock; on a lock that is not
    held it raises [RuntimeError]. *)
Definition release : M unit :=
  λ w, if capture_lock w then (inr tt, set_capture_lock false w)
       else (inl (RuntimeError "release unlocked lock"), w).

(** How [loop.run_until_complete(self.capture_task(task))] ends.  The capture
    itself (browser, page, image file) is outside the model: it reports
    success or failure, or the coroutine ends with an exception.  The lines
    the capture prints on the way are not recorded: of a run of the
    closures, [stdout] holds the lines the closures print themselves. *)
Inductive outcome : Type :=
| Succeeded
| Failed
| Raised (e : exn).

Definition run_until_complete (o : outcome) : M unit :=
  match o with
  | Raised e => raise e
  | Succeeded | Failed => ret tt
  end.

(** [loop = asyncio.new_event_loop()] and [asyncio.set_event_loop(loop)] *)
Definition new_event_loop : M unit := ret tt.

(** [loop.close()] *)
Definition loop_close : M unit := ret tt.

Definition skip_line (task : ScreenshotTask) : string :=
  "Capture already in progress for " +:+ url task +:+ ", skipping".

(** ** [App] *)

Module App.

(** [get_cron_schedule]: only [ValueError] is caught in the Custom branch. *)
Definition get_cron_schedule (f : Form) : exn + string :=
  let option := schedule_option f in
  if decide (option = "Every Minute") then inr "* * * * *"
  else if decide (option = "Every Hour") then inr "0 * * * *"
  else if decide (option = "Daily") then inr "0 0 * * *"
  else if decide (option = "Weekly") then inr "0 0 * * 0"
  else if decide (option = "Custom") then
    match (let? h := int (hour_spinbox f) in
           let? m := int (minute_spinbox f) in
           inr (h `mod` 24, m `mod` 60)) with
    | inr (hour, minute) =>
        inr (str_of_int minute +:+ " " +:+ str_of_int hour +:+ " * * *")
    | inl (ValueError _) => inr "Invalid"
    | inl e => inl e
    end
  else inr "0 * * * *".

Definition show_error (message : string) : M unit :=
  modify (λ w, set_dialogs (dialogs w ++ ["Error: " +:+ message]) w).

Definition show_success (message : string) : M unit :=
  modify (λ w, set_dialogs (dialogs w ++ ["Success: " +:+ message]) w).

(** [clear_task_inputs], on the widgets of the model. *)
Definition clear_task_inputs : M unit :=
  modify (λ w,
    let f := form w in
    set_form (mkForm "" "Every Hour" "00" "00" (width_entry f) (height_entry f)
                     (output_path_entry f) (full_page_var f)) w).

(** The guarded closure [capture_wrapper] that [schedule_task] registers as
    the job's function; [o] is how the capture of this run ends. *)
Definition capture_wrapper (task : ScreenshotTask) (o : outcome) : M unit :=
  acquired <- acquire_nonblocking ;;
  if negb acquired then print (skip_line task)
  else
    try_finally
      (new_event_loop ;;
       try_finally (run_until_complete o) loop_close)
      release.

(** The closure [capture] that [run_capture] starts on a new thread. *)
Definition capture (task : ScreenshotTask) (o : outcome) : M unit :=
  acquired <- acquire_nonblocking ;;
  if negb acquired then print (skip_line task)
  else
    try_finally
      (new_event_loop ;;
       try_finally (run_until_complete o) loop_close)
      release.

Section Scheduling.

(** The scheduler library is not part of the program.  Its trigger
    constructor is a parameter: [cron_trigger_error t] is the exception
    [CronTrigger(minute=..., hour=..., day=..., month=..., day_of_week=...)]
    raises on the five field expressions [t], if it raises. *)
Variable cron_trigger_error : Trigger → option exn.

Definition CronTrigger (minute hour day month day_of_week : string)
  : exn + Trigger :=
  let t := mkTrigger minute hour day month day_of_week in
  match cron_trigger_error t with
  | Some e => inl e
  | None => inr t
  end.

(** [self.scheduler.add_job(capture_wrapper, trigger=..., id=task.id,
    max_instances=1, replace_existing=True)]: the job is stored under the
    id, in place of a job already stored under it. *)
Definition add_job (task : ScreenshotTask) (trigger : Trigger) : M unit :=
  modify (λ w, set_jobs (<[id task := mkJob task trigger]> (jobs w)) w).

Definition schedule_task (task : ScreenshotTask) : M unit :=
  try_except
    (let cron_parts := split (cron_schedule task) in
     if decide (length cron_parts ≠ 5%nat)
     then raise (ValueError "Invalid cron format")
     else
       match cron_parts with
       | [minute; hour; day; month; day_of_week] =>
           trigger <- lift (CronTrigger minute hour day month day_of_week) ;;
           add_job task trigger ;;
           print ("Scheduled task: " +:+ url task +:+ " at "
                  +:+ cron_schedule task)
       | _ => raise (ValueError "not enough values to unpack")
       end)
    (λ e, print ("Failed to schedule task: " +:+ exn_message e)).

(** [load_scheduled_tasks]; the two widget refreshes it starts with
    ([update_tasks_list], [update_dashboard]) have no state in the model. *)
Definition load_scheduled_tasks : M unit :=
  tasks <- ConfigManager.get_tasks ;;
  for_each tasks (λ task,
    if enabled task then schedule_task task else ret tt).

(** [add_task]; [fresh_id] is the value of [str(uuid.uuid4())].  The default
    output path is written for a POSIX home directory other than the root;
    the path library joins the parts otherwise there and on Windows. *)
Definition add_task (fresh_id : string) : M unit :=
  f <- gets form ;;
  let url := strip (url_entry f) in
  cron <- lift (get_cron_schedule f) ;;
  width <- lift (int (width_entry f)) ;;
  height <- lift (int (height_entry f)) ;;
  if decide (url = "" ∨ cron = "Invalid") then
    show_error "Please enter a valid URL and schedule"
  else
    h <- gets home ;;
    let output_path :=
      if decide (output_path_entry f = "")
      then h +:+ "/Documents/Screenshots"
      else output_path_entry f in
    let task := mkTask fresh_id url cron output_path width height
                       (full_page_var f) true in
    ConfigManager.add_task task ;;
    load_scheduled_tasks ;;
    clear_task_inputs ;;
    show_success "Task added successfully".

Definition remove_task (task_id : string) : M unit :=
  ConfigManager.remove_task task_id ;;
  load_scheduled_tasks ;;
  show_success "Task removed successfully".

End Scheduling.

End App.

(** The background scheduler, at an instant at which the triggers selected
    by [fires] are due: it runs the closure of every such job of its job
    store. *)
Definition due_jobs (fires : Trigger → bool) (w : World) : list Job :=
  filter (λ j, fires (job_trigger j) = true) (map_to_list (jobs w)).*2.

(** ** Interleavings of the capture threads

    [run_capture] starts its closure on a new thread and the scheduler runs
    [capture_wrapper] on a worker thread, so several guarded closures can be
    under way at once.  Each is cut at its two calls on the lock, which are
    atomic; in between it only runs the capture.  (The scheduler's limit of
    one running instance per job, [max_instances=1], only takes runs away;
    it is not modelled.) *)

Inductive origin : Type :=
| Manual        (* the thread [run_capture] starts *)
| Scheduled.    (* a run of a job's [capture_wrapper] *)

Inductive pc : Type :=
| AtAcquire                    (* before [acquire(blocking=False)] *)
| InAction                     (* lock taken, [run_until_complete] under way *)
| AtRelease (r : exn + unit)   (* inner [try] left with [r], before [release()] *)
| Skipped                      (* returned after the "already in progress" line *)
| Ran (r : exn + unit).        (* left the closure after its [release()] *)

Record thread : Type := mkThread {
  th_origin : origin;
  th_task : ScreenshotTask;
  th_pc : pc
}.

Definition at_pc (t : thread) (p : pc) : thread :=
  mkThread (th_origin t) (th_task t) p.

(** The thread is between its successful acquire and its release. *)
Definition holding (t : thread) : bool :=
  match th_pc t with
  | InAction | AtRelease _ => true
  | AtAcquire | Skipped | Ran _ => false
  end.

(** One atomic step of a thread; [o] is how its capture ends (used by the
    step that leaves [InAction]).  A thread that has left the closure has no
    step. *)
Definition thread_step (o : outcome) (t : thread) (w : World)
  : option (thread * World) :=
  match th_pc t with
  | AtAcquire =>
      match acquire_nonblocking w with
      | (inr true, w') => Some (at_pc t InAction, w')
      | (inr false, w') => Some (at_pc t Skipped, (print (skip_line (th_task t)) w').2)
      | (inl e, w') => Some (at_pc t (Ran (inl e)), w')
      end
  | InAction =>
      match (new_event_loop ;;
             try_finally (run_until_complete o) loop_close) w with
      | (r, w') => Some (at_pc t (AtRelease r), w')
      end
  | AtRelease r =>
      match release w with
      | (inr _, w') => Some (at_pc t (Ran r), w')
      | (inl e, w') => Some (at_pc t (Ran (inl e)), w')
      end
  | Skipped | Ran _ => None
  end.

Record sys : Type := mkSys {
  world : World;
  threads : list thread
}.

(** A step of the whole program: one thread makes its next atomic step, or
    a new guarded closure is started (by the Run button or by the
    scheduler), for any task. *)
Inductive step (s : sys) : sys → Prop :=
| step_thread (i : nat) (t t' : thread) (o : outcome) (w' : World) :
    threads s !! i = Some t →
    thread_step o t (world s) = Some (t', w') →
    step s (mkSys w' (<[i := t']> (threads s)))
| step_spawn (from : origin) (task : ScreenshotTask) :
    step s (mkSys (world s) (threads s ++ [mkThread from task AtAcquire])).

(** The lock is held exactly when one thread is between acquire and
    release, and no two threads are. *)
Definition lock_ok (s : sys) : Prop :=
  (capture_lock (world s) = false →
     ∀ i t, threads s !! i = Some t → holding t = false) ∧
  (capture_lock (world s) = true →
     ∃ i t, threads s !! i = Some t ∧ holding t = true) ∧
  (∀ i j ti tj, threads s !! i = Some ti → threads s !! j = Some tj →
     holding ti = true → holding tj = true → i = j).

(** Every skipped attempt has a thread that took the lock. *)
Definition skips_justified (s : sys) : Prop :=
  ∀ i t, threads s !! i = Some t → th_pc t = Skipped →
    ∃ j t', threads s !! j = Some t' ∧
            (holding t' = true ∨ ∃ r, th_pc t' = Ran r).

(** ** What a run shows *)

(** The thread has taken the lock at some point. *)
Definition took (t : thread) : Prop :=
  holding t = true ∨ ∃ r, th_pc t = Ran r.

(** The thread has left the closure. *)
Definition finished (t : thread) : bool :=
  match th_pc t with
  | Skipped | Ran _ => true
  | AtAcquire | InAction | AtRelease _ => false
  end.

(** Of the attempts at [i] and [j], one took the lock and the other was
    skipped. *)
Definition one_runs_one_skips (s : sys) (i j : nat) : Prop :=
  ∃ ti tj, threads s !! i = Some ti ∧ threads s !! j = Some tj ∧
    ((took ti ∧ th_pc tj = Skipped) ∨ (th_pc ti = Skipped ∧ took tj)).

Definition both_finished (s : sys) (i j : nat) : Prop :=
  ∃ ti tj, threads s !! i = Some ti ∧ threads s !! j = Some tj ∧
    finished ti = true ∧ finished tj = true.

(** What the closure's caller sees when the capture ended as [o] after a
    successful acquire: the exception of the capture, if any. *)
Definition result_of (o : outcome) : exn + unit :=
  match o with
  | Raised e => inl e
  | Succeeded | Failed => inr tt
  end.

(** A thread run on its own for at most [n] atomic steps. *)
Fixpoint run_thread (n : nat) (o : outcome) (t : thread) (w : World)
  : thread * World :=
  match n with
  | O => (t, w)
  | S n' =>
      match thread_step o t w with
      | Some (t', w') => run_thread n' o t' w'
      | None => (t, w)
      end
  end.

Definition thread_result (t : thread) : exn + unit :=
  match th_pc t with
  | Ran r => r
  | _ => inr tt
  end.

(** ** Well-formed cron strings *)

(** A token made of decimal digits only, and its value. *)
Fixpoint decimal_digits (acc : Z) (s : string) : option Z :=
  match s with
  | EmptyString => Some acc
  | String c s' =>
      match digit_of c with
      | Some d => decimal_digits (10 * acc + d) s'
      | None => None
      end
  end.

Definition decimal (s : string) : option Z :=
  match s with
  | EmptyString => None
  | _ => decimal_digits 0 s
  end.

(** A cron field that is ["*"] or a decimal integer between [lo] and [hi]. *)
Definition field_ok (lo hi : Z) (tok : string) : bool :=
  if decide (tok = "*") then true
  else match decimal tok with
       | Some n => (lo <=? n) && (n <=? hi)
       | None => false
       end.

Definition fields_ok (t : Trigger) : bool :=
  field_ok 0 59 (minute t) && field_ok 0 23 (hour t) &&
  field_ok 1 31 (day t) && field_ok 1 12 (month t) &&
  field_ok 0 6 (day_of_week t).

(** The cron format as the specification words it (not a function of the
    program): exactly five whitespace-separated tokens, each ["*"] or a
    base-10 integer in the range of its field (minute 0-59, hour 0-23,
    day of month 1-31, month 1-12, day of week 0-6). *)
Definition cron_ok (expr : string) : bool :=
  match split expr with
  | [mi; ho; da; mo; dw] => fields_ok (mkTrigger mi ho da mo dw)
  | _ => false
  end.

(** A sample trigger constructor for running the model: it accepts the
    field expressions of [fields_ok] (the scheduler library accepts these
    and more) and raises [ValueError] on the others. *)
Definition strict_trigger_error (t : Trigger) : option exn :=
  if fields_ok t then None else Some (ValueError "Unrecognized expression").

(** The job [schedule_task] registers for [task] when its cron string has
    the five fields [mi ho da mo dw]. *)
Definition job_of (task : ScreenshotTask) (mi ho da mo dw : string) : Job :=
  mkJob task (mkTrigger mi ho da mo dw).

Definition failed_line (e : exn) : string :=
  "Failed to schedule task: " +:+ exn_message e.

Definition scheduled_line (task : ScreenshotTask) : string :=
  "Scheduled task: " +:+ url task +:+ " at " +:+ cron_schedule task.

(** The cron string of the Custom branch for an hour and a minute already
    reduced. *)
Definition custom_cron (hour minute : Z) : string :=
  str_of_int minute +:+ " " +:+ str_of_int hour +:+ " * * *".

Definition custom_cron_checked (hour minute : Z) : bool :=
  cron_ok (custom_cron hour minute) &&
  bool_decide (split (custom_cron hour minute)
               = [str_of_int minute; str_of_int hour; "*"; "*"; "*"]) &&
  bool_decide (decimal (str_of_int minute) = Some minute) &&
  bool_decide (decimal (str_of_int hour) = Some hour).

(** ** Sample tasks and states *)

(** Sample data: two tasks, a fresh application state. *)
Definition task_a : ScreenshotTask :=
  mkTask "a" "http://a.example" "* * * * *" "/shots" 1920 1080 true true.
Definition task_b : ScreenshotTask :=
  mkTask "b" "http://b.example" "0 * * * *" "/shots" 1920 1080 true true.

Definition empty_form : Form := mkForm "" "Every Hour" "00" "00" "1920" "1080" "" true.

Definition world0 : World := mkWorld [] [] ∅ false empty_form "/home/user" [] [].

(** A capture of [task_a] started with the Run button is under way (thread
    0 holds the lock) while the Run button and the scheduler each start a
    further attempt for [task_a]. *)
Definition sys_running : sys :=
  mkSys (set_capture_lock true world0)
        [mkThread Manual task_a InAction;
         mkThread Manual task_a AtAcquire;
         mkThread Scheduled task_a AtAcquire].

(** A capture of [task_b] is under way (thread 0 holds the lock) while the
    Run button and the scheduler each start an attempt for [task_a]. *)
Definition sys_held : sys :=
  mkSys (set_capture_lock true world0)
        [mkThread Manual task_b InAction;
         mkThread Manual task_a AtAcquire;
         mkThread Scheduled task_a AtAcquire].

(** The lock is free and the two attempts for [task_a] start. *)
Definition sys_idle : sys :=
  mkSys world0
        [mkThread Manual task_a AtAcquire;
         mkThread Scheduled task_a AtAcquire].

(** Two attempts for [task_a] from a free lock: the manual one has taken the
    lock, the scheduled one has been skipped. *)
Definition sys_one_runs : sys :=
  mkSys (set_stdout [skip_line task_a] (set_capture_lock true world0))
        [mkThread Manual task_a InAction;
         mkThread Scheduled task_a Skipped].

(** A store that holds [task_b] only. *)
Definition world_b : World := set_config_tasks [to_dict task_b] world0.

(** [task_b] with another schedule. *)
Definition task_b_daily : ScreenshotTask :=
  mkTask "b" "http://b.example" "0 0 * * *" "/shots" 1920 1080 true true.

(** A task whose cron string is malformed: four fields, minute 61. *)
Definition task_bad : ScreenshotTask :=
  mkTask "bad" "http://bad.example" "61 * * *" "/shots" 1920 1080 true true.

(** A task scheduled for the 31st of February. *)
Definition task_feb31 : ScreenshotTask :=
  mkTask "feb31" "http://c.example" "0 0 31 2 *" "/shots" 1920 1080 true true.

(** The form filled in for a capture of [http://a.example] every minute. *)
Definition form_a : Form :=
  mkForm " http://a.example " "Every Minute" "00" "00" "1920" "1080" "/shots" true.

(** The form filled in for a capture at 07:30 every day. *)
Definition form_custom : Form :=
  mkForm "http://a.example" "Custom" "07" "30" "1920" "1080" "/shots" true.

(** The state after the task of [form_a] was added with id ["a"]. *)
Definition world_a : World :=
  (App.add_task strict_trigger_error "a" (set_form form_a world0)).2.

(** ** The schedule widgets and the cron preview *)

(** [f"{i:02d}"] *)
Definition two_digits (i : Z) : string :=
  let s := str_of_int i in
  if (String.length s <? 2)%nat then "0" +:+ s else s.

(** The values offered by the three menus of the Tasks tab. *)
Definition schedule_values : list string :=
  ["Every Minute"; "Every Hour"; "Daily"; "Weekly"; "Custom"].
Definition hour_values : list string := two_digits <$> seqZ 0 24.
Definition minute_values : list string := two_digits <$> seqZ 0 60.

(** [update_cron_preview]: the text it sets on [cron_preview_label]
    (non-ASCII characters of the source appear as their UTF-8 bytes). *)
Definition update_cron_preview (f : Form) : exn + string :=
  let option := schedule_option f in
  let? cron :=
    if decide (option = "Every Minute") then inr "* * * * *"
    else if decide (option = "Every Hour") then inr "0 * * * *"
    else if decide (option = "Daily") then inr "0 0 * * *"
    else if decide (option = "Weekly") then inr "0 0 * * 0"
    else if decide (option = "Custom") then
      match (let? h := int (hour_spinbox f) in
             let? m := int (minute_spinbox f) in
             inr (h `mod` 24, m `mod` 60)) with
      | inr (hour, minute) =>
          inr (str_of_int minute +:+ " " +:+ str_of_int hour +:+ " * * *")
      | inl (ValueError _) => inr "Invalid"
      | inl e => inl e
      end
    else inr "" in
  inr ("⏰ Cron: " +:+ cron).

(** ** What [load_scheduled_tasks] leaves in the job store *)

(** The trigger [schedule_task] builds for a task, when it gets that far. *)
Definition trigger_of (cte : Trigger → option exn) (task : ScreenshotTask)
  : option Trigger :=
  match split (cron_schedule task) with
  | [mi; ho; da; mo; dw] =>
      match cte (mkTrigger mi ho da mo dw) with
      | Some _ => None
      | None => Some (mkTrigger mi ho da mo dw)
      end
  | _ => None
  end.

(** The job the last enabled, schedulable task of [ts] with id [k] gets. *)
Fixpoint last_job (cte : Trigger → option exn) (ts : list ScreenshotTask)
    (k : string) : option Job :=
  match ts with
  | [] => None
  | t :: ts' =>
      match last_job cte ts' k with
      | Some j => Some j
      | None =>
          if decide (id t = k) then
            if enabled t then mkJob t <$> trigger_of cte t else None
          else None
      end
  end.

(** Two states that differ at most in the job store and the printed
    lines. *)
Definition only_scheduling_differs (w w' : World) : Prop :=
  config_tasks w' = config_tasks w ∧ disk_tasks w' = disk_tasks w ∧
  capture_lock w' = capture_lock w ∧ form w' = form w ∧
  home w' = home w ∧ dialogs w' = dialogs w.

(** The job store after [load_scheduled_tasks] on the stored tasks [ts]. *)
Definition jobs_after_load (cte : Trigger → option exn)
    (ts : list ScreenshotTask) (js : gmap string Job) (k : string)
  : option Job :=
  match last_job cte ts k with
  | Some j => Some j
  | None => js !! k
  end.

(** The number of threads that were skipped. *)
Definition is_skipped (t : thread) : bool :=
  match th_pc t with
  | Skipped => true
  | _ => false
  end.

Definition skipped_count (s : sys) : nat :=
  length (filter (λ t, is_skipped t = true) (threads s)).

(** Two states that differ at most in the capture lock and the printed
    lines. *)
Definition only_lock_and_output_differ (w w' : World) : Prop :=
  config_tasks w' = config_tasks w ∧ disk_tasks w' = disk_tasks w ∧
  jobs w' = jobs w ∧ form w' = form w ∧
  home w' = home w ∧ dialogs w' = dialogs w.

(** ** The settings: dark mode and output directory *)

(** The application state with the two settings keys of [self.config], the
    same keys of [config.json], and the appearance mode of the toolkit. *)
Record Desktop : Type := mkDesktop {
  base : World;
  dark_mode : option bool;              (* config["dark_mode"], if present *)
  output_directory : option string;     (* config["output_directory"] *)
  disk_dark_mode : option bool;
  disk_output_directory : option string;
  appearance_mode : string              (* ctk.get_appearance_mode() *)
}.

Module Settings.

(** [self.config_manager.save_config()]: the whole configuration is
    written. *)
Definition save_config (d : Desktop) : Desktop :=
  mkDesktop (set_disk_tasks (config_tasks (base d)) (base d))
            (dark_mode d) (output_directory d)
            (dark_mode d) (output_directory d)
            (appearance_mode d).

(** [ConfigManager.load_config] when [config.json] exists: the
    configuration is what the file holds. *)
Definition load_config (d : Desktop) : Desktop :=
  mkDesktop (set_config_tasks (disk_tasks (base d)) (base d))
            (disk_dark_mode d) (disk_output_directory d)
            (disk_dark_mode d) (disk_output_directory d)
            (appearance_mode d).

Definition toggle_dark_mode (d : Desktop) : Desktop :=
  let current := appearance_mode d in
  let new_mode := if decide (current = "Dark") then "Light" else "Dark" in
  let is_dark := bool_decide (new_mode = "Dark") in
  save_config
    (mkDesktop (base d) (Some is_dark) (output_directory d)
               (disk_dark_mode d) (disk_output_directory d) new_mode).

Definition load_saved_config (d : Desktop) : Desktop :=
  let dark := default true (dark_mode d) in
  let output_dir := default "" (output_directory d) in
  let f := form (base d) in
  mkDesktop
    (set_form (mkForm (url_entry f) (schedule_option f) (hour_spinbox f)
                      (minute_spinbox f) (width_entry f) (height_entry f)
                      output_dir (full_page_var f)) (base d))
    (dark_mode d) (output_directory d)
    (disk_dark_mode d) (disk_output_directory d)
    (if dark then "Dark" else "Light").

Definition save_settings (d : Desktop) : Desktop :=
  let output_dir := output_path_entry (form (base d)) in
  if decide (output_dir = "") then d
  else
    let d1 := save_config
                (mkDesktop (base d) (dark_mode d) (Some output_dir)
                           (disk_dark_mode d) (disk_output_directory d)
                           (appearance_mode d)) in
    mkDesktop (App.show_success "Settings saved" (base d1)).2
              (dark_mode d1) (output_directory d1)
              (disk_dark_mode d1) (disk_output_directory d1)
              (appearance_mode d1).

End Settings.

(** ** [ScreenshotCapture.capture] and [App.capture_task] *)

(** The calls on the browser library and the file system. *)
Inductive call : Type :=
| PlaywrightStart                       (* async_playwright().start() *)
| Launch                                (* playwright.chromium.launch(headless=True) *)
| NewPage                               (* browser.new_page() *)
| SetViewportSize (w h : Z)
| Goto (url : string)                   (* wait_until="networkidle", timeout=30000 *)
| Mkdir (dir : string)                  (* mkdir(parents=True, exist_ok=True) *)
| Screenshot (path : string) (full : bool)
| PageClose
| BrowserClose
| PlaywrightStop.

(** The locals [playwright], [browser], [page] (set or [None]), the calls
    made so far, the printed lines and the status label. *)
Record Session : Type := mkSession {
  playwright : bool;
  browser : bool;
  page : bool;
  calls : list call;
  printed : list string;
  status_label : string
}.

Definition B (A : Type) : Type := Session → (exn + A) * Session.

Definition bret {A : Type} (a : A) : B A := λ b, (inr a, b).

Definition bbind {A C : Type} (m : B A) (k : A → B C) : B C :=
  λ b, match m b with
       | (inr a, b') => k a b'
       | (inl e, b') => (inl e, b')
       end.

Notation "x <~ m ;; k" := (bbind m (fun x => k))
  (at level 100, m at next level, right associativity).
Notation "m ;;; k" := (bbind m (fun _ => k))
  (at level 100, right associativity).

Definition bmodify (f : Session → Session) : B unit := λ b, (inr tt, f b).

Definition bprint (line : string) : B unit :=
  bmodify (λ b, mkSession (playwright b) (browser b) (page b) (calls b)
                          (printed b ++ [line]) (status_label b)).

Definition set_status (text : string) : B unit :=
  bmodify (λ b, mkSession (playwright b) (browser b) (page b) (calls b)
                          (printed b) text).

Definition set_locals (pw br pg : bool) : B unit :=
  bmodify (λ b, mkSession pw br pg (calls b) (printed b) (status_label b)).

(** [try: body / except Exception as e: handler(e)] *)
Definition btry_except {A : Type} (body : B A) (handler : exn → B A) : B A :=
  λ b, match body b with
       | (inr a, b') => (inr a, b')
       | (inl e, b') => handler e b'
       end.

(** [try: body / finally: fin] *)
Definition btry_finally {A : Type} (body : B A) (fin : B unit) : B A :=
  λ b, match body b with
       | (r, b') =>
           match fin b' with
           | (inr _, b'') => (r, b'')
           | (inl e, b'') => (inl e, b'')
           end
       end.

(** [if x: try: close() / except: pass] *)
Definition close_quietly (opened : Session → bool) (close : B unit) : B unit :=
  λ b, if opened b then btry_except close (λ _, bret tt) b else (inr tt, b).

Section Capture.

(** The library is outside the program: [fails c] is the exception the call
    [c] raises, if it raises; [joinpath a b] is [Path(a) / b] as a string
    and [parent p] the string of [Path(p).parent]. *)
Variable fails : call → option exn.
Variable joinpath : string → string → string.
Variable parent : string → string.

(** An awaited call: it is made, and raises or returns. *)
Definition await (c : call) : B unit :=
  λ b, let b' := mkSession (playwright b) (browser b) (page b)
                           (calls b ++ [c]) (printed b) (status_label b) in
       match fails c with
       | Some e => (inl e, b')
       | None => (inr tt, b')
       end.

(** [ScreenshotCapture.capture]; [timestamp] is
    [datetime.now().strftime("%Y%m%d_%H%M%S")].  (The traceback written to
    the error stream in the [except] clause is not modelled.) *)
Definition capture (task : ScreenshotTask) (timestamp : string) : B bool :=
  set_locals false false false ;;;
  btry_finally
    (btry_except
       (await PlaywrightStart ;;;
        bmodify (λ b, mkSession true (browser b) (page b) (calls b)
                                (printed b) (status_label b)) ;;;
        await Launch ;;;
        bmodify (λ b, mkSession (playwright b) true (page b) (calls b)
                                (printed b) (status_label b)) ;;;
        await NewPage ;;;
        bmodify (λ b, mkSession (playwright b) (browser b) true (calls b)
                                (printed b) (status_label b)) ;;;
        await (SetViewportSize (width task) (height task)) ;;;
        bprint ("Capturing: " +:+ url task) ;;;
        await (Goto (url task)) ;;;
        let filename := id task +:+ "_" +:+ timestamp +:+ ".png" in
        let output_file := joinpath (output_path task) filename in
        await (Mkdir (parent output_file)) ;;;
        await (Screenshot output_file (full_page task)) ;;;
        bprint ("Saved: " +:+ output_file) ;;;
        bret true)
       (λ e,
        bprint ("Error capturing " +:+ url task +:+ ": " +:+ exn_message e) ;;;
        bret false))
    (close_quietly page (await PageClose) ;;;
     close_quietly browser (await BrowserClose) ;;;
     close_quietly playwright (await PlaywrightStop)).

(** [App.capture_task]; the label updates and the redraws [self.update()]
    are taken to succeed. *)
Definition capture_task (task : ScreenshotTask) (timestamp : string) : B unit :=
  set_status ("📸 Capturing: " +:+ url task +:+ "...") ;;;
  success <~ capture task timestamp ;;
  if success
  then set_status ("✅ Capture successful: " +:+ url task)
  else set_status ("❌ Capture failed: " +:+ url task).

End Capture.

(** The calls [capture] makes before its [finally] clause when none
    fails. *)
Definition main_calls (joinpath : string → string → string)
    (parent : string → string) (task : ScreenshotTask) (timestamp : string)
  : list call :=
  let output_file :=
    joinpath (output_path task) (id task +:+ "_" +:+ timestamp +:+ ".png") in
  [PlaywrightStart; Launch; NewPage;
   SetViewportSize (width task) (height task); Goto (url task);
   Mkdir (parent output_file); Screenshot output_file (full_page task)].

(** The calls of the [finally] clause for the locals that were set, the
    page first. *)
Definition closing_calls (pw br pg : bool) : list call :=
  (if pg then [PageClose] else []) ++
  (if br then [BrowserClose] else []) ++
  (if pw then [PlaywrightStop] else []).

Definition is_closing (c : call) : bool :=
  match c with
  | PageClose | BrowserClose | PlaywrightStop => true
  | _ => false
  end.

(** ** Sample data for the added code *)

Definition session0 : Session := mkSession false false false [] [] "✓ Ready".

Definition desktop0 : Desktop := mkDesktop world0 None None None None "Dark".

(** A library in which loading the page fails and closing the browser
    fails too. *)
Definition goto_fails (c : call) : option exn :=
  match c with
  | Goto _ => Some (OtherError "Timeout 30000ms exceeded")
  | BrowserClose => Some (OtherError "Target closed")
  | _ => None
  end.

Definition posix_join (a b : string) : string := a +:+ "/" +:+ b.

(** The stored form of [task_a] without the optional keys. *)
Definition dict_a_required : dict :=
  <["id" := VStr "a"]>
  (<["url" := VStr "http://a.example"]>
  (<["cron_schedule" := VStr "* * * * *"]>
  (<["output_path" := VStr "/shots"]> ∅))).

(** A store whose second record lacks every key. *)
Definition world_corrupt : World :=
  set_config_tasks [to_dict task_b; ∅] world0.

(** Every menu value of the two spinboxes reads back as its number. *)
Definition spinbox_values_checked : bool :=
  forallb (λ i, match int (two_digits i) with
                | inr n => n =? i
                | inl _ => false
                end) (seqZ 0 60).

(** The form with a width that is not an integer. *)
Definition world_wide : World :=
  set_form (mkForm "http://a.example" "Daily" "00" "00" "19 20" "1080" "" true)
           world0.

(** The form with a URL of blanks only. *)
Definition world_blank : World :=
  set_form (mkForm "   " "Daily" "00" "00" "1920" "1080" "" true) world0.

(** The settings tab with [/shots] typed into the output path entry. *)
Definition desktop_shots : Desktop :=
  mkDesktop (set_form form_a world0) None None None None "Dark".

(** The form with the Custom schedule and an hour that is not a number. *)
Definition world_invalid : World :=
  set_form (mkForm "http://a.example" "Custom" "xx" "30" "1920" "1080" "" true)
           world0.

(** One atomic step of thread [i] in a run, its capture ending as [o]. *)
Ltac thread_steps i o :=
  eapply rtc_l; [eapply (step_thread _ i _ _ o); reflexivity |]; cbn.

(** * Properties *)

(** ** Round trip of the dictionary form *)

Lemma dom_to_dict (t : ScreenshotTask) : dom (to_dict t) = field_names.
Proof.
  unfold to_dict, field_names. rewrite !dom_insert_L, dom_empty_L.
  set_solver.
Qed.

Lemma from_dict_after_to_dict (t : ScreenshotTask) :
  from_dict (to_dict t) = inr t.
Proof.
  unfold from_dict. rewrite dom_to_dict.
  destruct (decide (field_names ⊆ field_names)) as [_ | Hn];
    [| exfalso; apply Hn; set_solver].
  destruct t; reflexivity.
Qed.

Lemma get_tasks_after_to_dict (ts : list ScreenshotTask) :
  emapM from_dict (to_dict <$> ts) = inr ts.
Proof.
  induction ts as [| t ts IH]; [done |].
  cbn [fmap list_fmap emapM]. rewrite from_dict_after_to_dict.
  cbn [ebind]. fold (fmap (M := list) to_dict ts). by rewrite IH.
Qed.

(** C9: [from_dict (to_dict t)] returns [t], for every task [t]; so a task
    list written to the configuration as dictionaries reads back, through
    [get_tasks], as the same list. *)
Theorem task_dict_round_trip :
  (∀ t : ScreenshotTask, from_dict (to_dict t) = inr t) ∧
  (∀ (ts : list ScreenshotTask) (w : World),
     (ConfigManager.get_tasks (set_config_tasks (to_dict <$> ts) w)).1 = inr ts).
Proof.
  split; [apply from_dict_after_to_dict |].
  intros ts w. apply get_tasks_after_to_dict.
Qed.

(** ** The capture lock under interleaving *)

Lemma thread_step_cases (o : outcome) (t t' : thread) (w w' : World) :
  thread_step o t w = Some (t', w') →
  (th_pc t = AtAcquire ∧ capture_lock w = false ∧
     t' = at_pc t InAction ∧ w' = set_capture_lock true w) ∨
  (th_pc t = AtAcquire ∧ capture_lock w = true ∧
     t' = at_pc t Skipped ∧
     w' = set_stdout (stdout w ++ [skip_line (th_task t)]) w) ∨
  (th_pc t = InAction ∧ w' = w ∧
     t' = at_pc t (AtRelease (match o with Raised e => inl e | _ => inr tt end))) ∨
  (∃ r, th_pc t = AtRelease r ∧ capture_lock w = true ∧
     t' = at_pc t (Ran r) ∧ w' = set_capture_lock false w) ∨
  (∃ r, th_pc t = AtRelease r ∧ capture_lock w = false ∧
     t' = at_pc t (Ran (inl (RuntimeError "release unlocked lock"))) ∧ w' = w).
Proof.
  unfold thread_step, acquire_nonblocking, release.
  destruct (th_pc t) as [| | r | | r] eqn:Hpc; try discriminate.
  - destruct (capture_lock w) eqn:Hl; intros [= <- <-]; [right; left | left]; done.
  - intros H. right; right; left.
    destruct o; cbn in H; injection H as <- <-; done.
  - destruct (capture_lock w) eqn:Hl; intros [= <- <-].
    + right; right; right; left. by exists r.
    + right; right; right; right. by exists r.
Qed.

Lemma holding_at_pc (t : thread) (p : pc) :
  holding (at_pc t p) =
  match p with InAction | AtRelease _ => true | _ => false end.
Proof. reflexivity. Qed.

(** A step that changes neither the lock nor whether its thread holds it
    keeps [lock_ok]. *)
Lemma lock_ok_same (s : sys) (i : nat) (t t' : thread) (w' : World) :
  threads s !! i = Some t →
  holding t' = holding t →
  capture_lock w' = capture_lock (world s) →
  lock_ok s → lock_ok (mkSys w' (<[i := t']> (threads s))).
Proof.
  intros Hi Hh Hl (Hfree & Hheld & Huniq).
  assert (Hold : ∀ j tj, <[i := t']> (threads s) !! j = Some tj →
                 ∃ tj0, threads s !! j = Some tj0 ∧ holding tj0 = holding tj).
  { intros j tj [(-> & <- & _) | (Hne & Hj)]%list_lookup_insert_Some; eauto. }
  unfold lock_ok; cbn [world threads]. rewrite Hl. split; [| split].
  - intros Hf j tj Hj. destruct (Hold j tj Hj) as (tj0 & Hj0 & <-). eauto.
  - intros Ht. destruct (Hheld Ht) as (j & tj & Hj & Hhj).
    destruct (decide (i = j)) as [<- | Hne].
    + exists i, t'. split.
      * apply list_lookup_insert_eq. by eapply lookup_lt_Some.
      * congruence.
    + exists j, tj. split; [| done]. by rewrite list_lookup_insert_ne.
  - intros j k tj tk Hj Hk Hhj Hhk.
    destruct (Hold j tj Hj) as (tj0 & Hj0 & Ej).
    destruct (Hold k tk Hk) as (tk0 & Hk0 & Ek).
    eapply Huniq; eauto; congruence.
Qed.

Lemma step_lock_ok (s s' : sys) : step s s' → lock_ok s → lock_ok s'.
Proof.
  intros [i t t' o w' Hi Hstep | from task] Hok.
  - pose proof Hok as (Hfree & Hheld & Huniq).
    apply thread_step_cases in Hstep
      as [(Hpc & Hl & -> & ->) | [(Hpc & Hl & -> & ->) | [(Hpc & -> & ->)
         | [(r & Hpc & Hl & -> & ->) | (r & Hpc & Hl & -> & ->)]]]].
    + (* the acquire succeeds *)
      split; [| split]; cbn [world threads].
      * discriminate.
      * intros _. exists i, (at_pc t InAction). split; [| done].
        apply list_lookup_insert_eq. by eapply lookup_lt_Some.
      * intros j k tj tk
          [(<- & <- & _) | (Hnj & Hj)]%list_lookup_insert_Some
          [(<- & <- & _) | (Hnk & Hk)]%list_lookup_insert_Some Hhj Hhk;
          try done.
        -- rewrite (Hfree Hl k tk Hk) in Hhk. discriminate.
        -- rewrite (Hfree Hl j tj Hj) in Hhj. discriminate.
        -- rewrite (Hfree Hl k tk Hk) in Hhk. discriminate.
    + (* the acquire fails *)
      apply lock_ok_same with (t := t); try done.
      rewrite holding_at_pc. unfold holding. by rewrite Hpc.
    + (* the capture ends *)
      apply lock_ok_same with (t := t); try done.
      rewrite holding_at_pc. unfold holding. by rewrite Hpc.
    + (* the release *)
      assert (Hht : holding t = true) by (unfold holding; by rewrite Hpc).
      assert (Hold : ∀ j tj, <[i := at_pc t (Ran r)]> (threads s) !! j = Some tj →
                     holding tj = true → i ≠ j ∧ threads s !! j = Some tj).
      { intros j tj [(-> & <- & _) | (Hne & Hj)]%list_lookup_insert_Some Hh;
          [discriminate | done]. }
      split; [| split]; cbn [world threads].
      * intros _ j tj Hj. destruct (holding tj) eqn:Hh; [| done].
        destruct (Hold j tj Hj Hh) as (Hne & Hj0).
        destruct Hne. eapply Huniq; eauto.
      * discriminate.
      * intros j k tj tk Hj Hk Hhj Hhk.
        destruct (Hold j tj Hj Hhj) as (_ & Hj0).
        destruct (Hold k tk Hk Hhk) as (_ & Hk0).
        eapply Huniq; eauto.
    + (* a release without the lock: no holder exists then *)
      assert (Hht : holding t = true) by (unfold holding; by rewrite Hpc).
      rewrite (Hfree Hl i t Hi) in Hht. discriminate.
  - (* a new thread *)
    destruct Hok as (Hfree & Hheld & Huniq).
    assert (Hold : ∀ j tj,
      (threads s ++ [mkThread from task AtAcquire]) !! j = Some tj →
      holding tj = true → threads s !! j = Some tj).
    { intros j tj [Hj | (_ & Hj)]%lookup_app_Some Hh; [done |].
      apply list_lookup_singleton_Some in Hj as (_ & <-). discriminate. }
    split; [| split]; cbn [world threads].
    + intros Hl j tj Hj. destruct (holding tj) eqn:Hh; [| done].
      rewrite <- Hh. eapply Hfree; eauto.
    + intros Hl. destruct (Hheld Hl) as (j & tj & Hj & Hh).
      exists j, tj. split; [| done]. apply lookup_app_Some. by left.
    + intros j k tj tk Hj Hk Hhj Hhk. eapply Huniq; eauto.
Qed.

Lemma thread_step_took (o : outcome) (t t' : thread) (w w' : World) :
  thread_step o t w = Some (t', w') → took t → took t'.
Proof.
  intros Hstep Ht.
  apply thread_step_cases in Hstep
    as [(Hpc & Hl & -> & ->) | [(Hpc & Hl & -> & ->) | [(Hpc & -> & ->)
       | [(r & Hpc & Hl & -> & ->) | (r & Hpc & Hl & -> & ->)]]]].
  - by left.
  - destruct Ht as [Hh | (r & Hr)].
    + unfold holding in Hh. rewrite Hpc in Hh. discriminate.
    + congruence.
  - by left.
  - right. by eexists.
  - right. by eexists.
Qed.

Lemma step_skips_justified (s s' : sys) :
  step s s' → lock_ok s → skips_justified s → skips_justified s'.
Proof.
  intros [i t t' o w' Hi Hstep | from task] (Hfree & Hheld & Huniq) Hjust.
  - assert (Hkeep : ∀ j tj, threads s !! j = Some tj → took tj →
              ∃ tj', <[i := t']> (threads s) !! j = Some tj' ∧ took tj').
    { intros j tj Hj Htook. destruct (decide (i = j)) as [<- | Hne].
      - exists t'. split.
        + apply list_lookup_insert_eq. by eapply lookup_lt_Some.
        + eapply thread_step_took; [done |]. congruence.
      - exists tj. by rewrite list_lookup_insert_ne. }
    intros k tk [(<- & <- & _) | (Hne & Hk)]%list_lookup_insert_Some Hpc;
      cbn [threads] in *.
    + (* the stepping thread has just been skipped: the lock was held *)
      apply thread_step_cases in Hstep
        as [(_ & _ & -> & _) | [(_ & Hl & _ & _) | [(_ & _ & ->)
           | [(r & _ & _ & -> & _) | (r & _ & _ & -> & _)]]]];
        try discriminate.
      destruct (Hheld Hl) as (j & tj & Hj & Hh).
      destruct (Hkeep j tj Hj (or_introl Hh)) as (tj' & Hj' & Ht').
      by exists j, tj'.
    + destruct (Hjust k tk Hk Hpc) as (j & tj & Hj & Ht).
      destruct (Hkeep j tj Hj Ht) as (tj' & Hj' & Ht').
      by exists j, tj'.
  - intros k tk [Hk | (_ & Hk)]%lookup_app_Some Hpc; cbn [threads] in *.
    + destruct (Hjust k tk Hk Hpc) as (j & tj & Hj & Ht).
      exists j, tj. split; [| done]. apply lookup_app_Some. by left.
    + apply list_lookup_singleton_Some in Hk as (_ & <-). discriminate.
Qed.

Lemma steps_invariant (s s' : sys) :
  rtc step s s' → lock_ok s → skips_justified s →
  lock_ok s' ∧ skips_justified s'.
Proof.
  induction 1 as [s | s s1 s2 Hstep _ IH]; [done |].
  intros Hok Hjust. apply IH.
  - by eapply step_lock_ok.
  - by eapply step_skips_justified.
Qed.

Lemma lock_ok_init (w : World) : capture_lock w = false → lock_ok (mkSys w []).
Proof.
  intros Hl. unfold lock_ok; cbn [world threads]. split; [| split].
  - intros _ i t Hi. by rewrite lookup_nil in Hi.
  - rewrite Hl. discriminate.
  - intros i j ti tj Hi. by rewrite lookup_nil in Hi.
Qed.

Lemma skips_justified_init (w : World) : skips_justified (mkSys w []).
Proof. intros i t Hi. cbn [threads] in Hi. by rewrite lookup_nil in Hi. Qed.

Lemma sys_held_reachable : rtc step (mkSys world0 []) sys_held.
Proof.
  eapply rtc_l; [apply (step_spawn _ Manual task_b) |]; cbn.
  thread_steps 0%nat Succeeded.
  eapply rtc_l; [apply (step_spawn _ Manual task_a) |]; cbn.
  eapply rtc_l; [apply (step_spawn _ Scheduled task_a) |]; cbn.
  apply rtc_refl.
Qed.

Lemma sys_idle_reachable : rtc step (mkSys world0 []) sys_idle.
Proof.
  eapply rtc_l; [apply (step_spawn _ Manual task_a) |]; cbn.
  eapply rtc_l; [apply (step_spawn _ Scheduled task_a) |]; cbn.
  apply rtc_refl.
Qed.

Lemma sys_running_reachable : rtc step (mkSys world0 []) sys_running.
Proof.
  eapply rtc_l; [apply (step_spawn _ Manual task_a) |]; cbn.
  thread_steps 0%nat Succeeded.
  eapply rtc_l; [apply (step_spawn _ Manual task_a) |]; cbn.
  eapply rtc_l; [apply (step_spawn _ Scheduled task_a) |]; cbn.
  apply rtc_refl.
Qed.

(** C1, as stated, fails for the program: while the lock is held by a
    capture of the task that is under way, the manual and the scheduled
    attempt for the task both end skipped; neither takes the lock. *)
Lemma run_now_and_tick_both_skipped :
  lock_ok sys_running ∧ capture_lock (world sys_running) = true ∧
  ¬ (∀ s', rtc step sys_running s' → both_finished s' 1 2 →
           one_runs_one_skips s' 1 2).
Proof.
  split; [| split].
  - apply (steps_invariant _ _ sys_running_reachable);
      [by apply lock_ok_init | apply skips_justified_init].
  - reflexivity.
  - intros H.
    eassert (Hrun : rtc step sys_running _).
    { thread_steps 1%nat Succeeded. thread_steps 2%nat Succeeded. apply rtc_refl. }
    destruct (H _ Hrun) as (ti & tj & [= <-] & [= <-] & [[[Hh | [r Hr]] _] | [_ [Hh | [r Hr]]]]);
      try discriminate.
    eexists _, _. repeat split; reflexivity.
Qed.

(** From a free lock both attempts run, one after the other, when the first
    has released before the second tries. *)
Lemma both_attempts_can_run_in_turn :
  lock_ok sys_idle ∧
  ¬ (∀ s', rtc step sys_idle s' → both_finished s' 0 1 →
           one_runs_one_skips s' 0 1).
Proof.
  split.
  - apply (steps_invariant _ _ sys_idle_reachable);
      [by apply lock_ok_init | apply skips_justified_init].
  - intros H.
    eassert (Hrun : rtc step sys_idle _).
    { thread_steps 0%nat Succeeded. thread_steps 0%nat Succeeded.
      thread_steps 0%nat Succeeded. thread_steps 1%nat Failed.
      thread_steps 1%nat Failed. thread_steps 1%nat Failed. apply rtc_refl. }
    destruct (H _ Hrun) as (ti & tj & [= <-] & [= <-] & [[_ Hs] | [Hs _]]);
      try discriminate.
    eexists _, _. repeat split; reflexivity.
Qed.

(** C1 (amended): in every interleaving of guarded closures on the one
    capture lock, no two threads are between acquire and release at once and
    the lock is held exactly when one is; an attempt whose non-blocking
    acquire runs while the lock is held is skipped and one whose acquire
    runs while it is free takes it; every skipped attempt has another
    attempt that took the lock. *)
Theorem capture_lock_single_flight (s s' : sys) :
  lock_ok s → skips_justified s → rtc step s s' →
  (∀ i j ti tj, threads s' !! i = Some ti → threads s' !! j = Some tj →
     holding ti = true → holding tj = true → i = j) ∧
  (capture_lock (world s') = true ↔
     ∃ i t, threads s' !! i = Some t ∧ holding t = true) ∧
  (∀ i t o, threads s' !! i = Some t → th_pc t = AtAcquire →
     ∃ t' w', thread_step o t (world s') = Some (t', w') ∧
       th_pc t' = if capture_lock (world s') then Skipped else InAction) ∧
  (∀ i t, threads s' !! i = Some t → th_pc t = Skipped →
     ∃ j t', j ≠ i ∧ threads s' !! j = Some t' ∧ took t').
Proof.
  intros Hok Hjust Hrun.
  destruct (steps_invariant _ _ Hrun Hok Hjust) as ((Hfree & Hheld & Huniq) & Hj').
  split; [done | split; [| split]].
  - split; [done |]. intros (i & t & Hi & Hh).
    destruct (capture_lock (world s')) eqn:Hl; [done |].
    rewrite (Hfree eq_refl i t Hi) in Hh. discriminate.
  - intros i t o Hi Hpc. unfold thread_step, acquire_nonblocking. rewrite Hpc.
    destruct (capture_lock (world s')); eexists _, _; split; reflexivity.
  - intros i t Hi Hpc. destruct (Hj' i t Hi Hpc) as (j & t' & Hj & Ht).
    exists j, t'. split; [| done]. intros ->.
    assert (t' = t) as -> by congruence.
    destruct Ht as [Hh | (r & Hr)]; [| congruence].
    unfold holding in Hh. rewrite Hpc in Hh. discriminate.
Qed.

Lemma capture_lock_single_flight_witness :
  lock_ok (mkSys world0 []) ∧ skips_justified (mkSys world0 []) ∧
  rtc step (mkSys world0 []) sys_one_runs ∧
  (∀ i j ti tj, threads sys_one_runs !! i = Some ti →
     threads sys_one_runs !! j = Some tj →
     holding ti = true → holding tj = true → i = j) ∧
  (capture_lock (world sys_one_runs) = true ↔
     ∃ i t, threads sys_one_runs !! i = Some t ∧ holding t = true) ∧
  (∀ i t o, threads sys_one_runs !! i = Some t → th_pc t = AtAcquire →
     ∃ t' w', thread_step o t (world sys_one_runs) = Some (t', w') ∧
       th_pc t' = if capture_lock (world sys_one_runs) then Skipped else InAction) ∧
  (∀ i t, threads sys_one_runs !! i = Some t → th_pc t = Skipped →
     ∃ j t', j ≠ i ∧ threads sys_one_runs !! j = Some t' ∧ took t').
Proof.
  assert (Hok : lock_ok (mkSys world0 [])) by (by apply lock_ok_init).
  assert (Hjust : skips_justified (mkSys world0 []))
    by apply skips_justified_init.
  assert (Hrun : rtc step (mkSys world0 []) sys_one_runs).
  { eapply rtc_l; [apply (step_spawn _ Manual task_a) |]; cbn.
    eapply rtc_l; [apply (step_spawn _ Scheduled task_a) |]; cbn.
    thread_steps 0%nat Succeeded. thread_steps 1%nat Succeeded.
    apply rtc_refl. }
  split; [exact Hok | split; [exact Hjust | split; [exact Hrun |]]].
  exact (capture_lock_single_flight (mkSys world0 []) sys_one_runs Hok Hjust Hrun).
Defined.

Lemma set_capture_lock_id (w : World) (b : bool) :
  capture_lock w = b → set_capture_lock b w = w.
Proof. destruct w; cbn; by intros ->. Qed.

Lemma set_capture_lock_twice (w : World) (b c : bool) :
  set_capture_lock c (set_capture_lock b w) = set_capture_lock c w.
Proof. reflexivity. Qed.

(** The two closures are the same code. *)
Lemma capture_eq_capture_wrapper (task : ScreenshotTask) (o : outcome) :
  App.capture task o = App.capture_wrapper task o.
Proof. reflexivity. Qed.

Lemma capture_wrapper_free (task : ScreenshotTask) (o : outcome) (w : World) :
  capture_lock w = false →
  App.capture_wrapper task o w = (result_of o, w).
Proof.
  destruct w as [c d j l f h so dl]; cbn. intros ->.
  destruct o; reflexivity.
Qed.

Lemma capture_wrapper_held (task : ScreenshotTask) (o : outcome) (w : World) :
  capture_lock w = true →
  App.capture_wrapper task o w =
    (inr tt, set_stdout (stdout w ++ [skip_line task]) w).
Proof.
  intros Hl. unfold App.capture_wrapper, bind, acquire_nonblocking.
  rewrite Hl. reflexivity.
Qed.

(** The three atomic steps of a thread, run without interruption, are the
    closure. *)
Lemma run_thread_capture_wrapper (from : origin) (task : ScreenshotTask)
    (o : outcome) (w : World) :
  let r := run_thread 3 o (mkThread from task AtAcquire) w in
  finished r.1 = true ∧
  App.capture_wrapper task o w = (thread_result r.1, r.2).
Proof.
  destruct (capture_lock w) eqn:Hl.
  - rewrite capture_wrapper_held by done.
    cbn. unfold thread_step, acquire_nonblocking. cbn. rewrite Hl. done.
  - rewrite capture_wrapper_free by done.
    destruct w as [c d j l f h so dl]; cbn in Hl; subst l.
    destruct o; done.
Qed.

(** C6: a closure that has acquired the lock releases it however its
    capture ends.  From a free lock its acquire takes the lock; the lock is
    held while the capture runs and when it has ended, with success, with
    failure or with an exception [e]; its release then frees the lock and
    the closure is left with the capture's result (the exception [e] is
    raised to its caller only after the release).  While the lock is held,
    either closure run for any task finds it taken and is skipped.  After
    the release the lock is free: the next non-blocking acquire returns
    [True], the acquire of any other closure takes the lock, and either
    closure run for any task goes through and leaves the lock free again. *)
Theorem lock_released_on_every_outcome
    (t : thread) (o : outcome) (w : World) :
  th_pc t = AtAcquire → capture_lock w = false →
  ∃ w1 w2 w3,
    thread_step o t w = Some (at_pc t InAction, w1) ∧
    capture_lock w1 = true ∧
    thread_step o (at_pc t InAction) w1
      = Some (at_pc t (AtRelease (result_of o)), w2) ∧
    capture_lock w2 = true ∧
    (∀ task' o' wh, wh = w1 ∨ wh = w2 →
       App.capture_wrapper task' o' wh
         = (inr tt, set_stdout (stdout wh ++ [skip_line task']) wh) ∧
       App.capture task' o' wh
         = (inr tt, set_stdout (stdout wh ++ [skip_line task']) wh)) ∧
    thread_step o (at_pc t (AtRelease (result_of o))) w2
      = Some (at_pc t (Ran (result_of o)), w3) ∧
    capture_lock w3 = false ∧
    acquire_nonblocking w3 = (inr true, set_capture_lock true w3) ∧
    (∀ t' o', th_pc t' = AtAcquire →
       ∃ w4, thread_step o' t' w3 = Some (at_pc t' InAction, w4) ∧
             capture_lock w4 = true) ∧
    (∀ task' o',
       ∃ w5, App.capture_wrapper task' o' w3 = (result_of o', w5) ∧
             App.capture task' o' w3 = (result_of o', w5) ∧
             capture_lock w5 = false).
Proof.
  intros Hpc Hl.
  exists (set_capture_lock true w), (set_capture_lock true w),
         (set_capture_lock false w).
  split; [unfold thread_step, acquire_nonblocking; by rewrite Hpc, Hl |].
  split; [reflexivity |].
  split; [destruct o; reflexivity |].
  split; [reflexivity |].
  split.
  { intros task' o' wh Hwh.
    assert (Hheld : capture_lock wh = true) by (by destruct Hwh as [-> | ->]).
    change (App.capture task' o' wh) with (App.capture_wrapper task' o' wh).
    by rewrite capture_wrapper_held. }
  split; [reflexivity |].
  split; [reflexivity |].
  split; [reflexivity |].
  split.
  { intros t' o' Hpc'. exists (set_capture_lock true w).
    split; [| reflexivity].
    unfold thread_step, acquire_nonblocking. by rewrite Hpc'. }
  intros task' o'. exists (set_capture_lock false w).
  change (App.capture task' o' (set_capture_lock false w))
    with (App.capture_wrapper task' o' (set_capture_lock false w)).
  by rewrite capture_wrapper_free.
Qed.

Lemma lock_released_on_every_outcome_witness :
  th_pc (mkThread Scheduled task_a AtAcquire) = AtAcquire ∧
  capture_lock world0 = false ∧
  ∃ w1 w2 w3,
    thread_step (Raised (OtherError "Target closed"))
      (mkThread Scheduled task_a AtAcquire) world0
      = Some (mkThread Scheduled task_a InAction, w1) ∧
    capture_lock w1 = true ∧
    thread_step (Raised (OtherError "Target closed"))
      (mkThread Scheduled task_a InAction) w1
      = Some (mkThread Scheduled task_a
                (AtRelease (inl (OtherError "Target closed"))), w2) ∧
    capture_lock w2 = true ∧
    thread_step (Raised (OtherError "Target closed"))
      (mkThread Scheduled task_a (AtRelease (inl (OtherError "Target closed")))) w2
      = Some (mkThread Scheduled task_a
                (Ran (inl (OtherError "Target closed"))), w3) ∧
    capture_lock w3 = false.
Proof.
  split; [reflexivity | split; [reflexivity |]].
  destruct (lock_released_on_every_outcome
              (mkThread Scheduled task_a AtAcquire)
              (Raised (OtherError "Target closed")) world0 eq_refl eq_refl)
    as (w1 & w2 & w3 & H1 & L1 & H2 & L2 & _ & H3 & L3 & _).
  exists w1, w2, w3.
  split; [exact H1 | split; [exact L1 | split; [exact H2 | split; [exact L2 |
    split; [exact H3 | exact L3]]]]].
Defined.

(** C2, as stated, fails for the program: [task_a] and [task_b] are distinct
    tasks, yet once the closure of [task_b] has taken the lock, the attempt
    for [task_a] is skipped. *)
Lemma capture_of_b_blocks_a :
  id task_a ≠ id task_b ∧
  ∃ w1,
    thread_step Succeeded (mkThread Manual task_b AtAcquire) world0
      = Some (mkThread Manual task_b InAction, w1) ∧
    ∀ o, ∃ w2,
      thread_step o (mkThread Scheduled task_a AtAcquire) w1
        = Some (mkThread Scheduled task_a Skipped, w2) ∧
      App.capture_wrapper task_a o w1 = (inr tt, w2) ∧
      stdout w2 = [skip_line task_a].
Proof.
  split; [discriminate |].
  eexists. split; [reflexivity |].
  intros o. eexists. repeat split; reflexivity.
Qed.

(** C2 (amended): the program has one capture lock for all tasks.  While a
    closure for any task A is between acquire and release, the non-blocking
    acquire of a closure for any task B, the same task or another one,
    fails: B's closure prints the skip line and returns, the lock stays
    held.  So no two captures run at once, of one task or of two. *)
Theorem one_lock_for_all_tasks (s : sys) (i j : nat) (ta tb : thread) (o : outcome) :
  lock_ok s →
  threads s !! i = Some ta → holding ta = true →
  threads s !! j = Some tb → th_pc tb = AtAcquire →
  let w' := set_stdout (stdout (world s) ++ [skip_line (th_task tb)]) (world s) in
  thread_step o tb (world s) = Some (at_pc tb Skipped, w') ∧
  App.capture_wrapper (th_task tb) o (world s) = (inr tt, w') ∧
  App.capture (th_task tb) o (world s) = (inr tt, w') ∧
  capture_lock w' = true.
Proof.
  intros (Hfree & _ & _) Hi Hh Hj Hpc w'.
  assert (Hl : capture_lock (world s) = true).
  { destruct (capture_lock (world s)) eqn:Hl; [done |].
    rewrite (Hfree eq_refl i ta Hi) in Hh. discriminate. }
  change (App.capture (th_task tb) o (world s))
    with (App.capture_wrapper (th_task tb) o (world s)).
  rewrite capture_wrapper_held by done.
  unfold thread_step, acquire_nonblocking. rewrite Hpc, Hl. done.
Qed.

Lemma one_lock_for_all_tasks_witness :
  lock_ok sys_held ∧
  thread_step Succeeded (mkThread Scheduled task_a AtAcquire) (world sys_held)
    = Some (mkThread Scheduled task_a Skipped,
            set_stdout [skip_line task_a] (world sys_held)).
Proof.
  assert (Hok : lock_ok sys_held).
  { apply (steps_invariant _ _ sys_held_reachable);
      [by apply lock_ok_init | apply skips_justified_init]. }
  split; [exact Hok |].
  apply (one_lock_for_all_tasks sys_held 0 2 (mkThread Manual task_b InAction)
           (mkThread Scheduled task_a AtAcquire) Succeeded Hok);
    reflexivity.
Defined.

(** C7, as stated, fails for the program: the guard is a [threading.Lock],
    and releasing it while it is free raises [RuntimeError]. *)
Lemma release_idle_raises :
  capture_lock world0 = false ∧
  release world0 = (inl (RuntimeError "release unlocked lock"), world0) ∧
  (release world0).1 ≠ inr tt.
Proof. repeat split; [reflexivity .. | discriminate]. Qed.

(** C7 (amended): releasing the capture lock while it is free raises
    [RuntimeError] and leaves it free.  The closures do not rely on a
    tolerant release: after a successful acquire they release once, which
    raises nothing, so that their caller sees the capture's own outcome. *)
Theorem release_of_free_lock_raises (w : World) :
  capture_lock w = false →
  release w = (inl (RuntimeError "release unlocked lock"), w) ∧
  ∀ task o,
    App.capture_wrapper task o w = (result_of o, w) ∧
    App.capture task o w = (result_of o, w).
Proof.
  intros Hl. split.
  - unfold release. by rewrite Hl.
  - intros task o.
    change (App.capture task o w) with (App.capture_wrapper task o w).
    by rewrite capture_wrapper_free.
Qed.

Lemma release_of_free_lock_raises_witness :
  capture_lock world0 = false ∧
  release world0 = (inl (RuntimeError "release unlocked lock"), world0) ∧
  App.capture_wrapper task_a Failed world0 = (inr tt, world0).
Proof.
  split; [reflexivity |].
  destruct (release_of_free_lock_raises world0 eq_refl) as [Hr Hc].
  split; [exact Hr |]. exact (proj1 (Hc task_a Failed)).
Defined.

(** ** The stored task list *)

Lemma get_tasks_eq (w : World) :
  ConfigManager.get_tasks w = (emapM from_dict (config_tasks w), w).
Proof. reflexivity. Qed.

Lemma update_task_eq (task : ScreenshotTask) (w : World) (ts : list ScreenshotTask) :
  emapM from_dict (config_tasks w) = inr ts →
  ConfigManager.update_task task w =
    (inr tt,
     let stored := to_dict <$> ConfigManager.replace_task task ts in
     set_disk_tasks stored (set_config_tasks stored w)).
Proof.
  intros Hts. unfold ConfigManager.update_task, bind.
  rewrite get_tasks_eq, Hts. reflexivity.
Qed.

Lemma remove_task_eq (task_id : string) (w : World) (ts : list ScreenshotTask) :
  emapM from_dict (config_tasks w) = inr ts →
  ConfigManager.remove_task task_id w =
    (inr tt,
     let stored := to_dict <$> filter (λ t, id t ≠ task_id) ts in
     set_disk_tasks stored (set_config_tasks stored w)).
Proof.
  intros Hts. unfold ConfigManager.remove_task, bind.
  rewrite get_tasks_eq, Hts. reflexivity.
Qed.

Lemma add_task_eq (task : ScreenshotTask) (w : World) (ts : list ScreenshotTask) :
  emapM from_dict (config_tasks w) = inr ts →
  ConfigManager.add_task task w =
    (inr tt,
     let stored := to_dict <$> (ts ++ [task]) in
     set_disk_tasks stored (set_config_tasks stored w)).
Proof.
  intros Hts. unfold ConfigManager.add_task, bind.
  rewrite get_tasks_eq, Hts. reflexivity.
Qed.

Lemma replace_task_nil (task : ScreenshotTask) :
  ConfigManager.replace_task task [] = [].
Proof. reflexivity. Qed.

Lemma replace_task_cons (task t : ScreenshotTask) (ts : list ScreenshotTask) :
  ConfigManager.replace_task task (t :: ts) =
  if decide (id t = id task) then task :: ts
  else t :: ConfigManager.replace_task task ts.
Proof.
  unfold ConfigManager.replace_task. cbn [list_find].
  destruct (decide (id t = id task)); [done |].
  destruct (list_find _ ts) as [[i x] |]; reflexivity.
Qed.

Lemma replace_task_absent (task : ScreenshotTask) (ts : list ScreenshotTask) :
  (∀ t, t ∈ ts → id t ≠ id task) → ConfigManager.replace_task task ts = ts.
Proof.
  induction ts as [| t ts IH]; intros Habs; [done |].
  rewrite replace_task_cons.
  destruct (decide (id t = id task)) as [E | _].
  - destruct (Habs t); [left | done].
  - f_equal. apply IH. intros t' Ht'. apply Habs. by right.
Qed.

Lemma replace_task_length (task : ScreenshotTask) (ts : list ScreenshotTask) :
  length (ConfigManager.replace_task task ts) = length ts.
Proof.
  unfold ConfigManager.replace_task.
  destruct (list_find _ ts) as [[i x] |]; [apply length_insert | done].
Qed.

Lemma replace_task_others (task : ScreenshotTask) (ts : list ScreenshotTask) :
  filter (λ t, id t ≠ id task) (ConfigManager.replace_task task ts) =
  filter (λ t, id t ≠ id task) ts.
Proof.
  induction ts as [| t ts IH]; [done |].
  rewrite replace_task_cons.
  destruct (decide (id t = id task)) as [E | N].
  - rewrite !filter_cons. by repeat case_decide.
  - rewrite !filter_cons. case_decide; [| done]. by rewrite IH.
Qed.

Lemma filter_none {A : Type} (P : A → Prop) `{∀ x, Decision (P x)} (l : list A) :
  (∀ x, x ∈ l → ¬ P x) → filter P l = [].
Proof.
  induction l as [| x l IH]; intros Hno; [done |].
  rewrite filter_cons. case_decide as Hx.
  - destruct (Hno x); [left | done].
  - apply IH. intros y Hy. apply Hno. by right.
Qed.

Lemma replace_task_unique (task : ScreenshotTask) (ts : list ScreenshotTask) :
  NoDup (id <$> ts) →
  (∃ t, t ∈ ts ∧ id t = id task) →
  filter (λ t, id t = id task) (ConfigManager.replace_task task ts) = [task].
Proof.
  induction ts as [| t ts IH]; intros Hnd (t0 & Hin & Hid).
  - by apply elem_of_nil in Hin.
  - rewrite replace_task_cons. cbn [fmap list_fmap] in Hnd.
    apply NoDup_cons in Hnd as [Hnotin Hnd].
    destruct (decide (id t = id task)) as [E | N].
    + rewrite filter_cons. case_decide; [| done]. f_equal.
      apply filter_none. intros x Hx Ex. apply Hnotin.
      rewrite E, <- Ex. apply list_elem_of_fmap. by exists x.
    + rewrite filter_cons. case_decide; [done |].
      apply IH; [done |]. exists t0. split; [| done].
      apply elem_of_cons in Hin as [-> | Hin]; done.
Qed.

Lemma world_b_tasks : emapM from_dict (config_tasks world_b) = inr [task_b].
Proof. apply (get_tasks_after_to_dict [task_b]). Qed.

Lemma get_tasks_stored (w : World) (ts : list ScreenshotTask) :
  ConfigManager.get_tasks
    (set_disk_tasks (to_dict <$> ts) (set_config_tasks (to_dict <$> ts) w))
  = (inr ts, set_disk_tasks (to_dict <$> ts) (set_config_tasks (to_dict <$> ts) w)).
Proof. rewrite get_tasks_eq. cbn [config_tasks set_disk_tasks set_config_tasks].
  by rewrite get_tasks_after_to_dict. Qed.

(** C5, as stated, fails for the program: [update_task] for an id that is
    not stored inserts nothing. *)
Lemma update_task_does_not_insert :
  (ConfigManager.get_tasks world_b).1 = inr [task_b] ∧
  id task_a ≠ id task_b ∧
  ∃ w', ConfigManager.update_task task_a world_b = (inr tt, w') ∧
        (ConfigManager.get_tasks w').1 = inr [task_b].
Proof.
  split; [| split].
  - rewrite get_tasks_eq. apply world_b_tasks.
  - discriminate.
  - eexists. split.
    + apply update_task_eq. apply world_b_tasks.
    + cbv zeta. rewrite get_tasks_stored. reflexivity.
Qed.

(** C5 (amended): [update_task] overwrites the first stored task that has
    the id of the given task and leaves every other record as it is; when no
    stored task has that id nothing is inserted and the list is as before.
    When the stored ids are pairwise distinct and the id is present, the
    result holds exactly one task with that id, the given one. *)
Theorem update_task_replaces_first_match
    (task : ScreenshotTask) (w : World) (ts : list ScreenshotTask) :
  emapM from_dict (config_tasks w) = inr ts →
  ∃ w' ts',
    ConfigManager.update_task task w = (inr tt, w') ∧
    ConfigManager.get_tasks w' = (inr ts', w') ∧
    disk_tasks w' = config_tasks w' ∧
    length ts' = length ts ∧
    filter (λ t, id t ≠ id task) ts' = filter (λ t, id t ≠ id task) ts ∧
    ((∀ t, t ∈ ts → id t ≠ id task) → ts' = ts) ∧
    (∀ i t, ts !! i = Some t → id t = id task →
            (∀ j tj, ts !! j = Some tj → (j < i)%nat → id tj ≠ id task) →
            ts' = <[i := task]> ts) ∧
    (NoDup (id <$> ts) → (∃ t, t ∈ ts ∧ id t = id task) →
     filter (λ t, id t = id task) ts' = [task]).
Proof.
  intros Hts. eexists _, (ConfigManager.replace_task task ts).
  split; [by apply update_task_eq |]. cbv zeta.
  split; [apply get_tasks_stored |].
  split; [reflexivity |].
  split; [apply replace_task_length |].
  split; [apply replace_task_others |].
  split; [apply replace_task_absent |].
  split; [| apply replace_task_unique].
  intros i t Hi Hid Hfirst. unfold ConfigManager.replace_task.
  assert (Hfind : list_find (λ t, id t = id task) ts = Some (i, t)).
  { apply list_find_Some. split; [done | split; [done |]].
    intros j y Hj Hlt. by eapply Hfirst. }
  by rewrite Hfind.
Qed.

Lemma update_task_replaces_first_match_witness :
  emapM from_dict (config_tasks world_b) = inr [task_b] ∧
  ∃ w' ts',
    ConfigManager.update_task task_b_daily world_b = (inr tt, w') ∧
    ConfigManager.get_tasks w' = (inr ts', w') ∧
    ts' = [task_b_daily].
Proof.
  split; [apply world_b_tasks |].
  destruct (update_task_replaces_first_match task_b_daily world_b [task_b]
              world_b_tasks)
    as (w' & ts' & Hup & Hget & _ & _ & _ & _ & Hrepl & _).
  exists w', ts'. split; [exact Hup | split; [exact Hget |]].
  apply (Hrepl 0%nat task_b); [reflexivity | reflexivity |].
  intros j tj _ Hlt. inversion Hlt.
Defined.

(** ** Scheduling *)

Section SchedulingFacts.

Variable cte : Trigger → option exn.

Lemma schedule_task_bad_count (task : ScreenshotTask) (w : World) :
  length (split (cron_schedule task)) ≠ 5%nat →
  App.schedule_task cte task w =
    (inr tt, set_stdout (stdout w ++ [failed_line (ValueError "Invalid cron format")]) w).
Proof.
  intros Hlen. unfold App.schedule_task, try_except.
  destruct (decide (length (split (cron_schedule task)) ≠ 5%nat)); [| done].
  reflexivity.
Qed.

Lemma schedule_task_rejected (task : ScreenshotTask) (w : World)
    (mi ho da mo dw : string) (e : exn) :
  split (cron_schedule task) = [mi; ho; da; mo; dw] →
  cte (mkTrigger mi ho da mo dw) = Some e →
  App.schedule_task cte task w =
    (inr tt, set_stdout (stdout w ++ [failed_line e]) w).
Proof.
  intros Hsplit Hrej. unfold App.schedule_task, try_except. rewrite Hsplit.
  destruct (decide _) as [Hn | _]; [by destruct Hn |].
  unfold bind, lift, App.CronTrigger. rewrite Hrej. reflexivity.
Qed.

Lemma schedule_task_accepted (task : ScreenshotTask) (w : World)
    (mi ho da mo dw : string) :
  split (cron_schedule task) = [mi; ho; da; mo; dw] →
  cte (mkTrigger mi ho da mo dw) = None →
  App.schedule_task cte task w =
    (inr tt,
     set_stdout (stdout w ++ [scheduled_line task])
       (set_jobs (<[id task := job_of task mi ho da mo dw]> (jobs w)) w)).
Proof.
  intros Hsplit Hacc. unfold App.schedule_task, try_except. rewrite Hsplit.
  destruct (decide _) as [Hn | _]; [by destruct Hn |].
  unfold bind, lift, App.CronTrigger. rewrite Hacc. reflexivity.
Qed.

(** What [schedule_task] can change: the job stored under the task's id,
    and the printed lines.  It never raises. *)
Lemma schedule_task_effect (task : ScreenshotTask) (w : World) :
  ∃ w', App.schedule_task cte task w = (inr tt, w') ∧
        config_tasks w' = config_tasks w ∧
        disk_tasks w' = disk_tasks w ∧
        capture_lock w' = capture_lock w ∧
        (∀ k, k ≠ id task → jobs w' !! k = jobs w !! k) ∧
        (∀ k, is_Some (jobs w !! k) → is_Some (jobs w' !! k)).
Proof.
  destruct (decide (length (split (cron_schedule task)) ≠ 5%nat)) as [Hn | Hlen].
  - eexists. split; [by apply schedule_task_bad_count |]. done.
  - apply dec_stable in Hlen.
    destruct (split (cron_schedule task))
      as [| mi [| ho [| da [| mo [| dw [| x l]]]]]] eqn:Hsplit; try discriminate.
    destruct (cte (mkTrigger mi ho da mo dw)) as [e |] eqn:Hc.
    + eexists. split; [by eapply schedule_task_rejected |]. done.
    + eexists. split; [by eapply schedule_task_accepted |].
      cbn. repeat split; try done.
      * intros k Hk. by rewrite lookup_insert_ne.
      * intros k Hk. destruct (decide (id task = k)) as [<- | Hne].
        -- rewrite lookup_insert_eq. by eexists.
        -- by rewrite lookup_insert_ne.
Qed.

Lemma load_tasks_effect (ts : list ScreenshotTask) (w : World) :
  ∃ w', for_each ts (λ task,
          if enabled task then App.schedule_task cte task else ret tt) w
        = (inr tt, w') ∧
        config_tasks w' = config_tasks w ∧
        disk_tasks w' = disk_tasks w ∧
        capture_lock w' = capture_lock w ∧
        (∀ k, k ∉ id <$> ts → jobs w' !! k = jobs w !! k) ∧
        (∀ k, is_Some (jobs w !! k) → is_Some (jobs w' !! k)).
Proof.
  revert w. induction ts as [| t ts IH]; intros w.
  - exists w. done.
  - cbn [for_each]. unfold bind.
    assert (Hhead : ∃ w1,
      (if enabled t then App.schedule_task cte t else ret tt) w = (inr tt, w1) ∧
      config_tasks w1 = config_tasks w ∧ disk_tasks w1 = disk_tasks w ∧
      capture_lock w1 = capture_lock w ∧
      (∀ k, k ≠ id t → jobs w1 !! k = jobs w !! k) ∧
      (∀ k, is_Some (jobs w !! k) → is_Some (jobs w1 !! k))).
    { destruct (enabled t); [apply schedule_task_effect |]. exists w. done. }
    destruct Hhead as (w1 & -> & Hc1 & Hd1 & Hl1 & Hj1 & Hk1).
    destruct (IH w1) as (w' & -> & Hc & Hd & Hl & Hj & Hk).
    exists w'. split; [done |].
    repeat split; try congruence.
    + intros k Hnot. cbn [fmap list_fmap] in Hnot.
      apply not_elem_of_cons in Hnot as [Hne Hnot].
      rewrite Hj by done. by apply Hj1.
    + intros k Hs. by apply Hk, Hk1.
Qed.

End SchedulingFacts.

(** ** Cron strings built by the form *)

Lemma custom_cron_table :
  forallb (λ h, forallb (λ m, custom_cron_checked h m) (seqZ 0 60)) (seqZ 0 24)
  = true.
Proof. vm_compute. reflexivity. Qed.

Lemma custom_cron_in_range (h m : Z) :
  0 ≤ h < 24 → 0 ≤ m < 60 → custom_cron_checked h m = true.
Proof.
  intros Hh Hm.
  pose proof custom_cron_table as Ht.
  rewrite forallb_forall in Ht.
  specialize (Ht h). rewrite forallb_forall in Ht.
  apply Ht; apply list_elem_of_In, elem_of_seqZ; lia.
Qed.

Lemma int_raises_ValueError (s : string) (e : exn) :
  int s = inl e → ∃ msg, e = ValueError msg.
Proof.
  unfold int.
  destruct (match strip s with
            | String "-"%char r => (-1, r)
            | String "+"%char r => (1, r)
            | _ => (1, strip s)
            end) as [sign body].
  destruct (int_digits 0 false body); [discriminate |].
  intros [= <-]. by eexists.
Qed.

Lemma get_cron_schedule_cases (f : Form) :
  ∃ cron, App.get_cron_schedule f = inr cron ∧
    (cron = "Invalid" ∨ cron = "* * * * *" ∨ cron = "0 * * * *" ∨
     cron = "0 0 * * *" ∨ cron = "0 0 * * 0" ∨
     ∃ h m, schedule_option f = "Custom" ∧
            int (hour_spinbox f) = inr h ∧ int (minute_spinbox f) = inr m ∧
            cron = custom_cron (h `mod` 24) (m `mod` 60)).
Proof.
  unfold App.get_cron_schedule.
  repeat (case_decide; [eexists; split; [reflexivity | tauto] |]).
  case_decide as Hc; [| eexists; split; [reflexivity | tauto]].
  destruct (int (hour_spinbox f)) as [e | h] eqn:Hh; cbn [ebind].
  - apply int_raises_ValueError in Hh as [msg ->].
    eexists; split; [reflexivity | tauto].
  - destruct (int (minute_spinbox f)) as [e | m] eqn:Hm; cbn [ebind].
    + apply int_raises_ValueError in Hm as [msg ->].
      eexists; split; [reflexivity | tauto].
    + eexists. split; [reflexivity |]. do 5 right. by exists h, m.
Qed.

Lemma cron_cases_ok (cron : string) (f : Form) :
  App.get_cron_schedule f = inr cron → cron ≠ "Invalid" →
  cron_ok cron = true ∧ length (split cron) = 5%nat.
Proof.
  intros Hc Hne. destruct (get_cron_schedule_cases f) as (c & Hc' & Hcases).
  assert (c = cron) as -> by congruence.
  destruct Hcases as [-> | [-> | [-> | [-> | [-> | (h & m & _ & _ & _ & ->)]]]]];
    try done.
  pose proof (custom_cron_in_range (h `mod` 24) (m `mod` 60)
                ltac:(apply Z.mod_pos_bound; lia)
                ltac:(apply Z.mod_pos_bound; lia)) as Hok.
  unfold custom_cron_checked in Hok.
  apply andb_prop in Hok as [Hok _]. apply andb_prop in Hok as [Hok _].
  apply andb_prop in Hok as [Hok Hsplit].
  apply bool_decide_eq_true in Hsplit. rewrite Hsplit. done.
Qed.

Lemma add_task_effect (cte : Trigger → option exn) (fresh : string)
    (w w' : World) (r : exn + unit) :
  App.add_task cte fresh w = (r, w') →
  config_tasks w' = config_tasks w ∨
  ∃ ts t, emapM from_dict (config_tasks w) = inr ts ∧
          config_tasks w' = to_dict <$> (ts ++ [t]) ∧
          id t = fresh ∧
          App.get_cron_schedule (form w) = inr (cron_schedule t) ∧
          cron_schedule t ≠ "Invalid" ∧ r = inr tt.
Proof.
  unfold App.add_task, bind, gets, lift.
  destruct (App.get_cron_schedule (form w)) as [e | cron] eqn:Hcron;
    [intros [= <- <-]; by left |].
  destruct (int (width_entry (form w))) as [e | wd]; [intros [= <- <-]; by left |].
  destruct (int (height_entry (form w))) as [e | ht]; [intros [= <- <-]; by left |].
  case_decide as Hbad; [intros [= <- <-]; by left |].
  cbv zeta.
  destruct (emapM from_dict (config_tasks w)) as [e | ts] eqn:Hts.
  - unfold ConfigManager.add_task, bind. rewrite get_tasks_eq, Hts.
    intros [= <- <-]. by left.
  - erewrite add_task_eq by done. cbv zeta.
    unfold App.load_scheduled_tasks, bind. rewrite get_tasks_stored.
    match goal with
    | |- context [for_each ?l ?b ?w1] =>
        destruct (load_tasks_effect cte l w1) as (w2 & -> & Hc & _)
    end.
    intros [= <- <-]. right. eexists ts, _. split; [done |].
    split; [exact Hc |]. cbn. repeat split; try done.
    intros ->. apply Hbad. by right.
Qed.

(** C10: the cron string [get_cron_schedule] builds is the sentinel
    ["Invalid"] or splits on whitespace into exactly five tokens, each
    ["*"] or a decimal integer in the range of its field; in the Custom
    branch the tokens are the minute reduced modulo 60 and the hour reduced
    modulo 24.  So the cron string of a task that [add_task] stores has five
    fields: the length check of [schedule_task] passes for it. *)
Theorem get_cron_schedule_well_formed :
  (∀ f : Form, ∃ cron,
     App.get_cron_schedule f = inr cron ∧
     (cron = "Invalid" ∨
      ∃ mi ho da mo dw,
        split cron = [mi; ho; da; mo; dw] ∧
        field_ok 0 59 mi = true ∧ field_ok 0 23 ho = true ∧
        field_ok 1 31 da = true ∧ field_ok 1 12 mo = true ∧
        field_ok 0 6 dw = true) ∧
     (schedule_option f = "Custom" →
      ∀ h m, int (hour_spinbox f) = inr h → int (minute_spinbox f) = inr m →
        split cron = [str_of_int (m `mod` 60); str_of_int (h `mod` 24); "*"; "*"; "*"] ∧
        decimal (str_of_int (m `mod` 60)) = Some (m `mod` 60) ∧
        0 ≤ m `mod` 60 ≤ 59 ∧
        decimal (str_of_int (h `mod` 24)) = Some (h `mod` 24) ∧
        0 ≤ h `mod` 24 ≤ 23)) ∧
  (∀ (cte : Trigger → option exn) (fresh : string) (w : World),
     config_tasks (App.add_task cte fresh w).2 = config_tasks w ∨
     ∃ ts t, emapM from_dict (config_tasks w) = inr ts ∧
             (ConfigManager.get_tasks (App.add_task cte fresh w).2).1
               = inr (ts ++ [t]) ∧
             id t = fresh ∧
             length (split (cron_schedule t)) = 5%nat).
Proof.
  split.
  - intros f. destruct (get_cron_schedule_cases f) as (cron & Hc & Hcases).
    exists cron. split; [done |]. split.
    + destruct (decide (cron = "Invalid")) as [-> | Hne]; [by left | right].
      destruct (cron_cases_ok cron f Hc Hne) as [Hok _].
      unfold cron_ok in Hok.
      destruct (split cron) as [| mi [| ho [| da [| mo [| dw [| x l]]]]]];
        try discriminate.
      exists mi, ho, da, mo, dw. split; [done |].
      unfold fields_ok in Hok. cbn in Hok.
      repeat (apply andb_prop in Hok as [Hok ?]). done.
    + intros Hcustom h m Hh Hm.
      assert (cron = custom_cron (h `mod` 24) (m `mod` 60)) as ->.
      { unfold App.get_cron_schedule in Hc. rewrite Hcustom, Hh, Hm in Hc.
        cbn in Hc. by injection Hc as <-. }
      pose proof (Z.mod_pos_bound h 24 ltac:(lia)) as Bh.
      pose proof (Z.mod_pos_bound m 60 ltac:(lia)) as Bm.
      pose proof (custom_cron_in_range _ _ Bh Bm) as Hok.
      unfold custom_cron_checked in Hok.
      apply andb_prop in Hok as [Hok Hdh]. apply andb_prop in Hok as [Hok Hdm].
      apply andb_prop in Hok as [_ Hsplit].
      apply bool_decide_eq_true in Hsplit, Hdm, Hdh.
      repeat split; try done; lia.
  - intros cte fresh w.
    destruct (App.add_task cte fresh w) as [r w'] eqn:Hadd.
    apply add_task_effect in Hadd as [Hsame | (ts & t & Hts & Hcfg & Hid & Hcron & Hne & _)];
      [by left | right].
    exists ts, t. split; [done |]. cbn [snd]. rewrite get_tasks_eq, Hcfg.
    split; [by rewrite get_tasks_after_to_dict |]. split; [done |].
    by destruct (cron_cases_ok _ _ Hcron Hne).
Qed.

Lemma get_cron_schedule_well_formed_witness :
  App.get_cron_schedule form_custom = inr "30 7 * * *" ∧
  split "30 7 * * *" = ["30"; "7"; "*"; "*"; "*"] ∧
  decimal "30" = Some 30 ∧ decimal "7" = Some 7.
Proof.
  destruct (proj1 get_cron_schedule_well_formed form_custom)
    as (cron & Hc & _ & Hcustom).
  destruct (Hcustom eq_refl 7 30 eq_refl eq_refl) as (Hsplit & Hm & _ & Hh & _).
  assert (cron = "30 7 * * *") as -> by (vm_compute in Hc; congruence).
  split; [exact Hc | split; [exact Hsplit | split; [exact Hm | exact Hh]]].
Defined.

(** ** Malformed and unreachable schedules; removal *)

Lemma load_scheduled_tasks_eq (cte : Trigger → option exn) (w : World)
    (ts : list ScreenshotTask) :
  emapM from_dict (config_tasks w) = inr ts →
  App.load_scheduled_tasks cte w =
  for_each ts (λ task,
    if enabled task then App.schedule_task cte task else ret tt) w.
Proof.
  intros Hts. unfold App.load_scheduled_tasks, bind.
  by rewrite get_tasks_eq, Hts.
Qed.




(** In [add_task] the sentinel is turned down before anything is stored. *)
Lemma add_task_invalid (cte : Trigger → option exn) (fresh : string) (w : World)
    (wd ht : Z) :
  App.get_cron_schedule (form w) = inr "Invalid" →
  int (width_entry (form w)) = inr wd →
  int (height_entry (form w)) = inr ht →
  App.add_task cte fresh w =
    (inr tt,
     set_dialogs (dialogs w ++ ["Error: Please enter a valid URL and schedule"]) w).
Proof.
  intros Hc Hw Hh. unfold App.add_task, bind, gets, lift.
  rewrite Hc, Hw, Hh. case_decide as Hbad; [reflexivity |].
  destruct Hbad. by right.
Qed.

(** C8, as stated, fails for the program: the task for the 31st of February
    is registered like any other and reported as scheduled. *)
Lemma feb31_is_scheduled :
  cron_ok (cron_schedule task_feb31) = true ∧
  ∃ w',
    App.schedule_task strict_trigger_error task_feb31 world0 = (inr tt, w') ∧
    jobs w' !! "feb31" = Some (job_of task_feb31 "0" "0" "31" "2" "*") ∧
    stdout w' = ["Scheduled task: http://c.example at 0 0 31 2 *"].
Proof.
  split; [reflexivity |].
  eexists. split; [by apply (schedule_task_accepted _ _ _ "0" "0" "31" "2" "*") |].
  cbn. split; [apply lookup_insert_eq | reflexivity].
Qed.

(** C8 (amended): [schedule_task] computes no fire time.  A cron string with
    five fields that the trigger constructor accepts, ["0 0 31 2 *"] among
    them, is registered as a job under the task's id and reported as
    scheduled; nothing is raised and the stored task list is as before. *)
Theorem accepted_fields_are_scheduled
    (cte : Trigger → option exn) (task : ScreenshotTask) (w : World)
    (mi ho da mo dw : string) :
  split (cron_schedule task) = [mi; ho; da; mo; dw] →
  cte (mkTrigger mi ho da mo dw) = None →
  ∃ w',
    App.schedule_task cte task w = (inr tt, w') ∧
    jobs w' = <[id task := job_of task mi ho da mo dw]> (jobs w) ∧
    stdout w' = stdout w ++ [scheduled_line task] ∧
    config_tasks w' = config_tasks w ∧
    disk_tasks w' = disk_tasks w.
Proof.
  intros Hsplit Hacc. eexists. split; [by apply schedule_task_accepted |]. done.
Qed.

Lemma accepted_fields_are_scheduled_witness :
  split (cron_schedule task_feb31) = ["0"; "0"; "31"; "2"; "*"] ∧
  strict_trigger_error (mkTrigger "0" "0" "31" "2" "*") = None ∧
  ∃ w',
    App.schedule_task strict_trigger_error task_feb31 world0 = (inr tt, w') ∧
    jobs w' = <[id task_feb31 := job_of task_feb31 "0" "0" "31" "2" "*"]> (jobs world0) ∧
    stdout w' = stdout world0 ++ [scheduled_line task_feb31] ∧
    config_tasks w' = config_tasks world0 ∧
    disk_tasks w' = disk_tasks world0.
Proof.
  split; [reflexivity | split; [reflexivity |]].
  apply (accepted_fields_are_scheduled strict_trigger_error task_feb31 world0);
    reflexivity.
Defined.

Lemma due_jobs_elem (fires : Trigger → bool) (w : World) (k : string) (j : Job) :
  jobs w !! k = Some j → fires (job_trigger j) = true →
  j ∈ due_jobs fires w.
Proof.
  intros Hk Hf. unfold due_jobs. apply list_elem_of_filter. split; [done |].
  apply list_elem_of_fmap. exists (k, j). split; [done |].
  by apply elem_of_map_to_list.
Qed.

(** C4 on the program: after [remove_task] the stored list no longer holds a
    task with the id and the other tasks are as before, but the job stays in
    the scheduler's job store under the id, so the scheduler still runs it
    whenever its trigger is due. *)
Theorem remove_task_leaves_job_scheduled
    (cte : Trigger → option exn) (task_id : string) (w : World)
    (ts : list ScreenshotTask) :
  emapM from_dict (config_tasks w) = inr ts →
  ∃ w',
    App.remove_task cte task_id w = (inr tt, w') ∧
    (ConfigManager.get_tasks w').1 = inr (filter (λ t, id t ≠ task_id) ts) ∧
    jobs w' !! task_id = jobs w !! task_id ∧
    ∀ fires j, jobs w !! task_id = Some j → fires (job_trigger j) = true →
               j ∈ due_jobs fires w'.
Proof.
  intros Hts. unfold App.remove_task, bind.
  erewrite remove_task_eq by done. cbv zeta.
  erewrite load_scheduled_tasks_eq
    by (cbn [config_tasks set_disk_tasks set_config_tasks];
        apply get_tasks_after_to_dict).
  match goal with
  | |- context [for_each ?l ?b ?w1] =>
      destruct (load_tasks_effect cte l w1) as (w2 & -> & Hc & _ & _ & Hj & _)
  end.
  eexists. split; [reflexivity |].
  assert (Hjob : jobs w2 !! task_id = jobs w !! task_id).
  { rewrite Hj; [done |]. intros (t & Hid & Hin)%list_elem_of_fmap.
    apply list_elem_of_filter in Hin as [Hne _]. by destruct Hne. }
  split; [| split].
  - rewrite get_tasks_eq. cbn [fst config_tasks App.show_success modify set_dialogs].
    rewrite Hc. cbn [config_tasks set_disk_tasks set_config_tasks].
    apply get_tasks_after_to_dict.
  - exact Hjob.
  - intros fires j Hk Hf. apply due_jobs_elem with (k := task_id); [| done].
    cbn. by rewrite Hjob.
Qed.

Lemma world_a_tasks : emapM from_dict (config_tasks world_a) = inr [task_a].
Proof. vm_compute. reflexivity. Qed.

Lemma world_a_job :
  jobs world_a !! "a" = Some (job_of task_a "*" "*" "*" "*" "*").
Proof. vm_compute. reflexivity. Qed.

Lemma remove_task_leaves_job_scheduled_witness :
  emapM from_dict (config_tasks world_a) = inr [task_a] ∧
  ∃ w',
    App.remove_task strict_trigger_error "a" world_a = (inr tt, w') ∧
    (ConfigManager.get_tasks w').1 = inr [] ∧
    jobs w' !! "a" = Some (job_of task_a "*" "*" "*" "*" "*") ∧
    job_of task_a "*" "*" "*" "*" "*" ∈ due_jobs (λ _, true) w'.
Proof.
  split; [exact world_a_tasks |].
  destruct (remove_task_leaves_job_scheduled strict_trigger_error "a" world_a
              [task_a] world_a_tasks) as (w' & Hrm & Hget & Hjob & Hdue).
  exists w'. split; [exact Hrm |]. split; [exact Hget |].
  split; [rewrite Hjob; exact world_a_job |].
  apply (Hdue (λ _, true) _ world_a_job). reflexivity.
Defined.

(** * Further properties of the program *)

(** ** Dictionaries and the stored list *)

Lemma from_dict_inv (data : dict) (t : ScreenshotTask) :
  from_dict data = inr t →
  dom data ⊆ field_names ∧
  data !! "id" = Some (VStr (id t)) ∧
  data !! "url" = Some (VStr (url t)) ∧
  data !! "cron_schedule" = Some (VStr (cron_schedule t)) ∧
  data !! "output_path" = Some (VStr (output_path t)) ∧
  (data !! "width" = Some (VInt (width t)) ∨
   data !! "width" = None ∧ width t = 1920) ∧
  (data !! "height" = Some (VInt (height t)) ∨
   data !! "height" = None ∧ height t = 1080) ∧
  (data !! "full_page" = Some (VBool (full_page t)) ∨
   data !! "full_page" = None ∧ full_page t = true) ∧
  (data !! "enabled" = Some (VBool (enabled t)) ∨
   data !! "enabled" = None ∧ enabled t = true).
Proof.
  unfold from_dict, arg_str, arg_int, arg_bool.
  destruct (decide (dom data ⊆ field_names)) as [Hdom | _]; [| discriminate].
  destruct (data !! "id") as [[i | |] |]; try discriminate.
  destruct (data !! "url") as [[u | |] |]; try discriminate.
  destruct (data !! "cron_schedule") as [[c | |] |]; try discriminate.
  destruct (data !! "output_path") as [[o | |] |]; try discriminate.
  destruct (data !! "width") as [[| wd |] |]; try discriminate;
  destruct (data !! "height") as [[| ht |] |]; try discriminate;
  destruct (data !! "full_page") as [[| | fp] |]; try discriminate;
  destruct (data !! "enabled") as [[| | en] |]; try discriminate;
  cbn; intros [= <-]; cbn; repeat split; auto.
Qed.

Lemma to_dict_lookup (t : ScreenshotTask) (k : string) (v : value) :
  to_dict t !! k = Some v ↔
  (k = "id" ∧ v = VStr (id t)) ∨ (k = "url" ∧ v = VStr (url t)) ∨
  (k = "cron_schedule" ∧ v = VStr (cron_schedule t)) ∨
  (k = "output_path" ∧ v = VStr (output_path t)) ∨
  (k = "width" ∧ v = VInt (width t)) ∨ (k = "height" ∧ v = VInt (height t)) ∨
  (k = "full_page" ∧ v = VBool (full_page t)) ∨
  (k = "enabled" ∧ v = VBool (enabled t)).
Proof.
  unfold to_dict. rewrite !lookup_insert_Some, lookup_empty. split.
  - intros H.
    repeat (destruct H as [[<- <-] | [_ H]]; [tauto |]). discriminate.
  - intros H.
    repeat (destruct H as [[-> ->] | H];
            [repeat (first [left; split; [reflexivity | reflexivity]
                           | right; split; [discriminate |]]) |]).
    destruct H as [-> ->].
    repeat (first [left; split; [reflexivity | reflexivity]
                  | right; split; [discriminate |]]).
Qed.



Lemma set_stored_twice (w : World) (l1 l2 : list dict) :
  set_disk_tasks l2 (set_config_tasks l2
    (set_disk_tasks l1 (set_config_tasks l1 w)))
  = set_disk_tasks l2 (set_config_tasks l2 w).
Proof. reflexivity. Qed.

(** X2: [ConfigManager.add_task] appends: afterwards [get_tasks] returns the
    tasks stored before, in their order, followed by the new task; the file
    holds what the configuration holds, and the job store and the capture
    lock are untouched. *)
Theorem config_add_task_appends
    (task : ScreenshotTask) (w : World) (ts : list ScreenshotTask) :
  emapM from_dict (config_tasks w) = inr ts →
  ∃ w',
    ConfigManager.add_task task w = (inr tt, w') ∧
    ConfigManager.get_tasks w' = (inr (ts ++ [task]), w') ∧
    disk_tasks w' = config_tasks w' ∧
    jobs w' = jobs w ∧ capture_lock w' = capture_lock w.
Proof.
  intros Hts. eexists. split; [by apply add_task_eq |]. cbv zeta.
  split; [apply get_tasks_stored | done].
Qed.

Lemma config_add_task_appends_witness :
  emapM from_dict (config_tasks world_b) = inr [task_b] ∧
  ∃ w',
    ConfigManager.add_task task_a world_b = (inr tt, w') ∧
    ConfigManager.get_tasks w' = (inr [task_b; task_a], w').
Proof.
  split; [exact world_b_tasks |].
  destruct (config_add_task_appends task_a world_b [task_b] world_b_tasks)
    as (w' & Hadd & Hget & _).
  exists w'. split; [exact Hadd | exact Hget].
Defined.

Lemma filter_id_absent (task_id : string) (ts : list ScreenshotTask) :
  task_id ∉ id <$> ts → filter (λ t, id t ≠ task_id) ts = ts.
Proof.
  induction ts as [| t ts IH]; [done |]. cbn [fmap list_fmap].
  intros [Hne Hnot]%not_elem_of_cons.
  rewrite filter_cons. case_decide; [| congruence]. f_equal. by apply IH.
Qed.



Lemma filter_id_app_fresh (task : ScreenshotTask) (ts : list ScreenshotTask) :
  id task ∉ id <$> ts →
  filter (λ t, id t ≠ id task) (ts ++ [task]) = ts.
Proof.
  intros Hfresh. rewrite filter_app, filter_id_absent by done.
  rewrite filter_cons. case_decide; [done |]. apply app_nil_r.
Qed.

(** X4: adding a task whose id is not stored and then removing that id gives
    back the stored list. *)
Theorem config_add_then_remove
    (task : ScreenshotTask) (w : World) (ts : list ScreenshotTask) :
  emapM from_dict (config_tasks w) = inr ts →
  id task ∉ id <$> ts →
  ∃ w1 w2,
    ConfigManager.add_task task w = (inr tt, w1) ∧
    ConfigManager.remove_task (id task) w1 = (inr tt, w2) ∧
    ConfigManager.get_tasks w2 = (inr ts, w2).
Proof.
  intros Hts Hfresh. eexists _, _.
  split; [by apply add_task_eq |]. cbv zeta.
  split.
  - apply remove_task_eq.
    cbn [config_tasks set_disk_tasks set_config_tasks].
    apply get_tasks_after_to_dict.
  - cbv zeta. rewrite filter_id_app_fresh by done. apply get_tasks_stored.
Qed.

Lemma config_add_then_remove_witness :
  emapM from_dict (config_tasks world_b) = inr [task_b] ∧
  (id task_a ∉ id <$> [task_b]) ∧
  ∃ w1 w2,
    ConfigManager.add_task task_a world_b = (inr tt, w1) ∧
    ConfigManager.remove_task "a" w1 = (inr tt, w2) ∧
    ConfigManager.get_tasks w2 = (inr [task_b], w2).
Proof.
  assert (Hfresh : id task_a ∉ id <$> [task_b]).
  { intros H. apply list_elem_of_singleton in H. discriminate. }
  split; [exact world_b_tasks | split; [exact Hfresh |]].
  exact (config_add_then_remove task_a world_b [task_b] world_b_tasks Hfresh).
Defined.

Lemma from_dict_raises_TypeError (d : dict) (e : exn) :
  from_dict d = inl e → ∃ msg, e = TypeError msg.
Proof.
  unfold from_dict, arg_str, arg_int, arg_bool, missing, ill_typed.
  destruct (decide (dom d ⊆ field_names)); [| intros [= <-]; by eexists].
  destruct (d !! "id") as [[| |] |]; cbn; try (intros [= <-]; by eexists).
  destruct (d !! "url") as [[| |] |]; cbn; try (intros [= <-]; by eexists).
  destruct (d !! "cron_schedule") as [[| |] |]; cbn;
    try (intros [= <-]; by eexists).
  destruct (d !! "output_path") as [[| |] |]; cbn;
    try (intros [= <-]; by eexists).
  destruct (d !! "width") as [[| |] |]; cbn; try (intros [= <-]; by eexists);
  destruct (d !! "height") as [[| |] |]; cbn; try (intros [= <-]; by eexists);
  destruct (d !! "full_page") as [[| |] |]; cbn; try (intros [= <-]; by eexists);
  destruct (d !! "enabled") as [[| |] |]; cbn; try (intros [= <-]; by eexists);
  discriminate.
Qed.

(** A record with a key that is no field, or without one of the four
    fields that have no default, does not load. *)
Lemma from_dict_bad_keys (d : dict) :
  ¬ dom d ⊆ field_names ∨ d !! "id" = None ∨ d !! "url" = None ∨
    d !! "cron_schedule" = None ∨ d !! "output_path" = None →
  ∃ e, from_dict d = inl e.
Proof.
  intros Hbad. destruct (from_dict d) as [e | t] eqn:Hload; [by eexists |].
  destruct (from_dict_inv d t Hload) as (Hdom & Hi & Hu & Hc & Ho & _).
  destruct Hbad as [Hk | [Hk | [Hk | [Hk | Hk]]]]; [done | congruence ..].
Qed.

Lemma emapM_fails (l : list dict) (d : dict) (e' : exn) :
  d ∈ l → from_dict d = inl e' → ∃ msg, emapM from_dict l = inl (TypeError msg).
Proof.
  induction l as [| x l IH]; intros Hin Hd; [by apply elem_of_nil in Hin |].
  cbn [emapM]. destruct (from_dict x) as [e | t] eqn:Hx.
  { apply from_dict_raises_TypeError in Hx as [msg ->]. by eexists. }
  cbn [ebind]. apply elem_of_cons in Hin as [-> | Hin]; [congruence |].
  destruct (IH Hin Hd) as [msg ->]. by eexists.
Qed.

(** X5: one stored record with a key that is no field of the task, or
    without one of the four fields that have no default ([id], [url],
    [cron_schedule], [output_path]), blocks the whole list: [get_tasks]
    raises [TypeError], and with it the three mutators of [ConfigManager],
    [load_scheduled_tasks] and [App.remove_task]; each leaves the
    configuration, the file and the job store exactly as they were. *)
Theorem unloadable_record_blocks_the_store
    (cte : Trigger → option exn) (w : World) (d : dict)
    (task : ScreenshotTask) (task_id : string) :
  d ∈ config_tasks w →
  ¬ dom d ⊆ field_names ∨ d !! "id" = None ∨ d !! "url" = None ∨
    d !! "cron_schedule" = None ∨ d !! "output_path" = None →
  ∃ msg,
    ConfigManager.get_tasks w = (inl (TypeError msg), w) ∧
    ConfigManager.add_task task w = (inl (TypeError msg), w) ∧
    ConfigManager.remove_task task_id w = (inl (TypeError msg), w) ∧
    ConfigManager.update_task task w = (inl (TypeError msg), w) ∧
    App.load_scheduled_tasks cte w = (inl (TypeError msg), w) ∧
    App.remove_task cte task_id w = (inl (TypeError msg), w).
Proof.
  intros Hin Hbad. destruct (from_dict_bad_keys d Hbad) as [e' Hd].
  destruct (emapM_fails _ _ _ Hin Hd) as [msg He]. exists msg.
  unfold App.remove_task, App.load_scheduled_tasks, ConfigManager.add_task,
    ConfigManager.remove_task, ConfigManager.update_task, bind.
  rewrite get_tasks_eq, He. done.
Qed.

Lemma unloadable_record_blocks_the_store_witness :
  ((∅ : dict) ∈ config_tasks world_corrupt) ∧
  (∅ : dict) !! "id" = None ∧
  ∃ msg,
    ConfigManager.add_task task_a world_corrupt
      = (inl (TypeError msg), world_corrupt) ∧
    App.remove_task strict_trigger_error "b" world_corrupt
      = (inl (TypeError msg), world_corrupt).
Proof.
  assert (Hin : (∅ : dict) ∈ config_tasks world_corrupt)
    by (right; left).
  assert (Hd : (∅ : dict) !! "id" = None) by reflexivity.
  split; [exact Hin | split; [exact Hd |]].
  destruct (unloadable_record_blocks_the_store strict_trigger_error
              world_corrupt ∅ task_a "b" Hin (or_intror (or_introl Hd)))
    as (msg & _ & Hadd & _ & _ & _ & Hrm).
  exists msg. split; [exact Hadd | exact Hrm].
Defined.

(** ** The form: cron preview and [add_task] *)

Lemma spinbox_values_table : spinbox_values_checked = true.
Proof. vm_compute. reflexivity. Qed.

Lemma int_two_digits (i : Z) : 0 ≤ i < 60 → int (two_digits i) = inr i.
Proof.
  intros Hi. pose proof spinbox_values_table as Ht.
  unfold spinbox_values_checked in Ht. rewrite forallb_forall in Ht.
  specialize (Ht i ltac:(apply list_elem_of_In, elem_of_seqZ; lia)).
  destruct (int (two_digits i)) as [e | n]; [discriminate |].
  apply Z.eqb_eq in Ht. by subst.
Qed.

Lemma get_cron_schedule_custom (f : Form) (h m : Z) :
  schedule_option f = "Custom" →
  int (hour_spinbox f) = inr h → int (minute_spinbox f) = inr m →
  App.get_cron_schedule f = inr (custom_cron (h `mod` 24) (m `mod` 60)).
Proof.
  intros Ho Hh Hm. unfold App.get_cron_schedule. rewrite Ho, Hh, Hm.
  reflexivity.
Qed.

(** X6: with the values the hour and minute menus offer (["00"] to ["23"],
    ["00"] to ["59"]) the Custom schedule is never ["Invalid"]: it is the
    chosen minute and hour, printed without leading zero, followed by three
    stars, and it is a well-formed cron string. *)
Theorem custom_menu_values_give_cron (f : Form) :
  schedule_option f = "Custom" →
  hour_spinbox f ∈ hour_values → minute_spinbox f ∈ minute_values →
  ∃ h m,
    0 ≤ h < 24 ∧ 0 ≤ m < 60 ∧
    hour_spinbox f = two_digits h ∧ minute_spinbox f = two_digits m ∧
    App.get_cron_schedule f
      = inr (str_of_int m +:+ " " +:+ str_of_int h +:+ " * * *") ∧
    split (str_of_int m +:+ " " +:+ str_of_int h +:+ " * * *")
      = [str_of_int m; str_of_int h; "*"; "*"; "*"] ∧
    decimal (str_of_int m) = Some m ∧ decimal (str_of_int h) = Some h ∧
    str_of_int m +:+ " " +:+ str_of_int h +:+ " * * *" ≠ "Invalid".
Proof.
  intros Ho (h & Hh & Hhr%elem_of_seqZ)%list_elem_of_fmap
            (m & Hm & Hmr%elem_of_seqZ)%list_elem_of_fmap.
  exists h, m. split; [lia | split; [lia |]]. split; [done | split; [done |]].
  pose proof (custom_cron_in_range h m ltac:(lia) ltac:(lia)) as Hok.
  unfold custom_cron_checked in Hok.
  apply andb_prop in Hok as [Hok Hdh]. apply andb_prop in Hok as [Hok Hdm].
  apply andb_prop in Hok as [Hcron Hsplit].
  apply bool_decide_eq_true in Hsplit, Hdm, Hdh.
  fold (custom_cron h m). split; [| split; [done | split; [done | split; [done |]]]].
  - rewrite (get_cron_schedule_custom f h m Ho); rewrite ?Hh, ?Hm;
      try (apply int_two_digits; lia).
    by rewrite !Z.mod_small by lia.
  - intros Heq. rewrite Heq in Hcron. discriminate.
Qed.

Lemma custom_menu_values_give_cron_witness :
  schedule_option form_custom = "Custom" ∧
  hour_spinbox form_custom ∈ hour_values ∧
  minute_spinbox form_custom ∈ minute_values ∧
  ∃ h m, hour_spinbox form_custom = two_digits h ∧
         minute_spinbox form_custom = two_digits m ∧
         App.get_cron_schedule form_custom
           = inr (str_of_int m +:+ " " +:+ str_of_int h +:+ " * * *").
Proof.
  assert (Hh : hour_spinbox form_custom ∈ hour_values).
  { apply list_elem_of_fmap. exists 7. split; [reflexivity |].
    apply elem_of_seqZ. lia. }
  assert (Hm : minute_spinbox form_custom ∈ minute_values).
  { apply list_elem_of_fmap. exists 30. split; [reflexivity |].
    apply elem_of_seqZ. lia. }
  split; [reflexivity | split; [exact Hh | split; [exact Hm |]]].
  destruct (custom_menu_values_give_cron form_custom eq_refl Hh Hm)
    as (h & m & _ & _ & Eh & Em & Hc & _).
  exists h, m. split; [exact Eh | split; [exact Em | exact Hc]].
Defined.

(** X7: for each of the five schedules of the menu the preview label shows
    the cron string [get_cron_schedule] returns (after its prefix), so the
    preview is what [add_task] will store; for any other option text the two
    differ: the preview is empty while [get_cron_schedule] falls back to the
    hourly schedule. *)
Theorem preview_shows_the_schedule (f : Form) :
  (schedule_option f ∈ schedule_values →
   ∃ cron, App.get_cron_schedule f = inr cron ∧
           update_cron_preview f = inr ("⏰ Cron: " +:+ cron)) ∧
  (schedule_option f ∉ schedule_values →
   App.get_cron_schedule f = inr "0 * * * *" ∧
   update_cron_preview f = inr "⏰ Cron: ").
Proof.
  unfold schedule_values. rewrite !elem_of_cons, elem_of_nil. split.
  - intros Hin. destruct (get_cron_schedule_cases f) as (cron & Hc & _).
    exists cron. split; [done |]. revert Hc.
    unfold App.get_cron_schedule, update_cron_preview.
    repeat (case_decide; [by intros [= <-] |]).
    case_decide as Hcustom; [| tauto].
    destruct (let? h := int (hour_spinbox f) in _) as [e | [hh mm]];
      [destruct e |]; try discriminate; intros [= <-]; reflexivity.
  - intros Hout. unfold App.get_cron_schedule, update_cron_preview.
    repeat (case_decide; [tauto |]).
    done.
Qed.

Lemma preview_shows_the_schedule_witness :
  schedule_option form_custom ∈ schedule_values ∧
  update_cron_preview form_custom = inr "⏰ Cron: 30 7 * * *".
Proof.
  assert (Hin : schedule_option form_custom ∈ schedule_values)
    by (unfold schedule_values; cbn; rewrite !elem_of_cons; tauto).
  split; [exact Hin |].
  destruct (proj1 (preview_shows_the_schedule form_custom) Hin)
    as (cron & Hc & Hp).
  assert (cron = "30 7 * * *") as -> by (vm_compute in Hc; congruence).
  exact Hp.
Defined.

(** ** What scheduling leaves in the job store *)

Lemma schedule_task_precise (cte : Trigger → option exn)
    (t : ScreenshotTask) (w : World) :
  ∃ w1 line,
    App.schedule_task cte t w = (inr tt, w1) ∧
    jobs w1 = match trigger_of cte t with
              | Some tr => <[id t := mkJob t tr]> (jobs w)
              | None => jobs w
              end ∧
    only_scheduling_differs w w1 ∧
    stdout w1 = stdout w ++ [line].
Proof.
  unfold trigger_of.
  destruct (decide (length (split (cron_schedule t)) ≠ 5%nat)) as [Hn | Hlen].
  - eexists _, _. split; [by apply schedule_task_bad_count |].
    split; [| by repeat split].
    destruct (split (cron_schedule t))
      as [| mi [| ho [| da [| mo [| dw [| x l]]]]]]; try done.
  - apply dec_stable in Hlen.
    destruct (split (cron_schedule t))
      as [| mi [| ho [| da [| mo [| dw [| x l]]]]]] eqn:Hsplit; try discriminate.
    destruct (cte (mkTrigger mi ho da mo dw)) as [e |] eqn:Hc.
    + eexists _, _. split; [by eapply schedule_task_rejected |].
      by repeat split.
    + eexists _, _. split; [by eapply schedule_task_accepted |].
      by repeat split.
Qed.

Lemma only_scheduling_differs_trans (w1 w2 w3 : World) :
  only_scheduling_differs w1 w2 → only_scheduling_differs w2 w3 →
  only_scheduling_differs w1 w3.
Proof.
  unfold only_scheduling_differs. intros (? & ? & ? & ? & ? & ?) (? & ? & ? & ? & ? & ?).
  repeat split; congruence.
Qed.

Lemma for_each_schedule (cte : Trigger → option exn)
    (ts : list ScreenshotTask) (w : World) :
  ∃ w',
    for_each ts (λ task,
      if enabled task then App.schedule_task cte task else ret tt) w
    = (inr tt, w') ∧
    (∀ k, jobs w' !! k = jobs_after_load cte ts (jobs w) k) ∧
    only_scheduling_differs w w' ∧
    length (stdout w') = (length (stdout w) + length (filter (λ t, enabled t = true) ts))%nat.
Proof.
  revert w. induction ts as [| t ts IH]; intros w.
  - exists w. repeat split; cbn; lia.
  - cbn [for_each]. unfold bind.
    assert (Hhead : ∃ w1,
      (if enabled t then App.schedule_task cte t else ret tt) w = (inr tt, w1) ∧
      jobs w1 = (if enabled t then
                   match trigger_of cte t with
                   | Some tr => <[id t := mkJob t tr]> (jobs w)
                   | None => jobs w
                   end
                 else jobs w) ∧
      only_scheduling_differs w w1 ∧
      length (stdout w1) = (length (stdout w) + if enabled t then 1 else 0)%nat).
    { destruct (enabled t).
      - destruct (schedule_task_precise cte t w) as (w1 & line & H1 & H2 & H3 & H4).
        exists w1. repeat split; try done; try apply H3.
        rewrite H4, length_app. reflexivity.
      - exists w. repeat split; cbn; lia. }
    destruct Hhead as (w1 & -> & Hj1 & Hf1 & Hl1).
    destruct (IH w1) as (w' & -> & Hj & Hf & Hl).
    exists w'. split; [done |]. split; [| split].
    + intros k. rewrite Hj. unfold jobs_after_load. cbn [last_job].
      destruct (last_job cte ts k) as [j |]; [done |].
      rewrite Hj1. destruct (decide (id t = k)) as [<- | Hne].
      * destruct (enabled t); [| done].
        destruct (trigger_of cte t) as [tr |]; [| done].
        cbn. apply lookup_insert_eq.
      * destruct (enabled t); [| done].
        destruct (trigger_of cte t) as [tr |]; [| done].
        by rewrite lookup_insert_ne.
    + by eapply only_scheduling_differs_trans.
    + rewrite Hl, Hl1, filter_cons.
      destruct (enabled t); case_decide; try done; cbn; lia.
Qed.

Lemma load_scheduled_tasks_precise (cte : Trigger → option exn) (w : World)
    (ts : list ScreenshotTask) :
  emapM from_dict (config_tasks w) = inr ts →
  ∃ w',
    App.load_scheduled_tasks cte w = (inr tt, w') ∧
    (∀ k, jobs w' !! k = jobs_after_load cte ts (jobs w) k) ∧
    only_scheduling_differs w w' ∧
    length (stdout w') = (length (stdout w) + length (filter (λ t, enabled t = true) ts))%nat.
Proof.
  intros Hts. rewrite (load_scheduled_tasks_eq cte w ts Hts).
  apply for_each_schedule.
Qed.

Lemma last_job_id (cte : Trigger → option exn) (ts : list ScreenshotTask)
    (k : string) (j : Job) :
  last_job cte ts k = Some j →
  ∃ t tr, t ∈ ts ∧ id t = k ∧ enabled t = true ∧
          trigger_of cte t = Some tr ∧ j = mkJob t tr.
Proof.
  induction ts as [| t ts IH]; [discriminate |]. cbn [last_job].
  destruct (last_job cte ts k) as [j' |].
  - intros [= ->]. destruct (IH eq_refl) as (t' & tr & Hin & ?).
    exists t', tr. split; [by right | done].
  - case_decide as Hid; [| discriminate].
    destruct (enabled t) eqn:He; [| discriminate].
    destruct (trigger_of cte t) as [tr |] eqn:Ht; [| discriminate].
    cbn. intros [= <-]. exists t, tr. split; [by left |].
    repeat split; assumption.
Qed.

Lemma last_job_unique (cte : Trigger → option exn) (ts : list ScreenshotTask)
    (t : ScreenshotTask) :
  NoDup (id <$> ts) → t ∈ ts →
  last_job cte ts (id t) =
    if enabled t then mkJob t <$> trigger_of cte t else None.
Proof.
  induction ts as [| t0 ts IH]; intros Hnd Hin; [by apply elem_of_nil in Hin |].
  cbn [fmap list_fmap] in Hnd. apply NoDup_cons in Hnd as [Hnotin Hnd].
  cbn [last_job]. apply elem_of_cons in Hin as [-> | Hin].
  - destruct (last_job cte ts (id t0)) as [j |] eqn:Hj.
    + apply last_job_id in Hj as (t' & tr & Hin' & Hid & _).
      destruct Hnotin. rewrite <- Hid. apply list_elem_of_fmap. by exists t'.
    + by rewrite decide_True.
  - rewrite (IH Hnd Hin).
    destruct (decide (id t0 = id t)) as [E | N].
    + destruct Hnotin. rewrite E. apply list_elem_of_fmap. by exists t.
    + by destruct (if enabled t then _ else _).
Qed.

Lemma last_job_absent (cte : Trigger → option exn) (ts : list ScreenshotTask)
    (k : string) :
  (∀ t, t ∈ ts → id t = k → enabled t = false ∨ trigger_of cte t = None) →
  last_job cte ts k = None.
Proof.
  intros Hno. destruct (last_job cte ts k) as [j |] eqn:Hj; [| done].
  apply last_job_id in Hj as (t & tr & Hin & Hid & He & Ht & _).
  destruct (Hno t Hin Hid); congruence.
Qed.

Lemma jobs_after_load_keeps (cte : Trigger → option exn)
    (ts : list ScreenshotTask) (js : gmap string Job) (k : string) :
  is_Some (js !! k) → is_Some (jobs_after_load cte ts js k).
Proof.
  unfold jobs_after_load. destruct (last_job cte ts k); [by eexists | done].
Qed.

(** X8: [load_scheduled_tasks] changes nothing but the job store and the
    printed lines: the stored list, the file, the lock, the form and the
    dialogs are as before; and it prints exactly one line for every enabled
    stored task (scheduled or failed). *)
Theorem load_scheduled_tasks_frame
    (cte : Trigger → option exn) (w : World) (ts : list ScreenshotTask) :
  emapM from_dict (config_tasks w) = inr ts →
  ∃ w',
    App.load_scheduled_tasks cte w = (inr tt, w') ∧
    only_scheduling_differs w w' ∧
    length (stdout w') =
      (length (stdout w) + length (filter (λ t, enabled t = true) ts))%nat.
Proof.
  intros Hts.
  destruct (load_scheduled_tasks_precise cte w ts Hts) as (w' & Hl & Hj & Hf & Hn).
  exists w'. repeat split; try done; apply Hf.
Qed.

Lemma load_scheduled_tasks_frame_witness :
  emapM from_dict (config_tasks world_b) = inr [task_b] ∧
  ∃ w',
    App.load_scheduled_tasks strict_trigger_error world_b = (inr tt, w') ∧
    only_scheduling_differs world_b w' ∧
    length (stdout w') = 1%nat.
Proof.
  split; [exact world_b_tasks |].
  destruct (load_scheduled_tasks_frame strict_trigger_error world_b [task_b]
              world_b_tasks) as (w' & Hl & Hf & Hn).
  exists w'. split; [exact Hl | split; [exact Hf | exact Hn]].
Defined.

(** X9: [load_scheduled_tasks] is idempotent on the job store: loading a
    second time leaves exactly the jobs of the first load. *)
Theorem load_scheduled_tasks_twice
    (cte : Trigger → option exn) (w : World) (ts : list ScreenshotTask) :
  emapM from_dict (config_tasks w) = inr ts →
  ∃ w1 w2,
    App.load_scheduled_tasks cte w = (inr tt, w1) ∧
    App.load_scheduled_tasks cte w1 = (inr tt, w2) ∧
    jobs w2 = jobs w1.
Proof.
  intros Hts.
  destruct (load_scheduled_tasks_precise cte w ts Hts)
    as (w1 & Hl1 & Hj1 & (Hc1 & _) & _).
  assert (Hts1 : emapM from_dict (config_tasks w1) = inr ts) by congruence.
  destruct (load_scheduled_tasks_precise cte w1 ts Hts1)
    as (w2 & Hl2 & Hj2 & _ & _).
  exists w1, w2. split; [done | split; [done |]].
  apply map_eq. intros k. rewrite Hj2. unfold jobs_after_load.
  rewrite !Hj1. unfold jobs_after_load.
  by destruct (last_job cte ts k).
Qed.

Lemma load_scheduled_tasks_twice_witness :
  emapM from_dict (config_tasks world_b) = inr [task_b] ∧
  ∃ w1 w2,
    App.load_scheduled_tasks strict_trigger_error world_b = (inr tt, w1) ∧
    App.load_scheduled_tasks strict_trigger_error w1 = (inr tt, w2) ∧
    jobs w2 = jobs w1.
Proof.
  split; [exact world_b_tasks |].
  exact (load_scheduled_tasks_twice strict_trigger_error world_b [task_b]
           world_b_tasks).
Defined.

(** X10: when the stored ids are pairwise distinct, [load_scheduled_tasks]
    leaves, for every stored task: the job made of the task and its five
    cron fields under the task's id if the task is enabled and its cron
    string has five fields the trigger constructor accepts; the job store
    entry of its id as it was if the task is disabled or its cron string is
    not accepted.  Ids that are not stored keep their entries. *)
Theorem load_scheduled_tasks_jobs
    (cte : Trigger → option exn) (w : World) (ts : list ScreenshotTask) :
  emapM from_dict (config_tasks w) = inr ts →
  NoDup (id <$> ts) →
  ∃ w',
    App.load_scheduled_tasks cte w = (inr tt, w') ∧
    (∀ t tr, t ∈ ts → enabled t = true → trigger_of cte t = Some tr →
       jobs w' !! id t = Some (mkJob t tr)) ∧
    (∀ t, t ∈ ts → enabled t = false ∨ trigger_of cte t = None →
       jobs w' !! id t = jobs w !! id t) ∧
    (∀ k, k ∉ id <$> ts → jobs w' !! k = jobs w !! k).
Proof.
  intros Hts Hnd.
  destruct (load_scheduled_tasks_precise cte w ts Hts) as (w' & Hl & Hj & _ & _).
  exists w'. split; [done |]. split; [| split].
  - intros t tr Hin He Ht. rewrite Hj. unfold jobs_after_load.
    by rewrite (last_job_unique cte ts t Hnd Hin), He, Ht.
  - intros t Hin Hno. rewrite Hj. unfold jobs_after_load.
    rewrite (last_job_unique cte ts t Hnd Hin).
    destruct Hno as [-> | ->]; [done |]. by destruct (enabled t).
  - intros k Hk. rewrite Hj. unfold jobs_after_load.
    rewrite last_job_absent; [done |].
    intros t Hin Hid. destruct Hk. rewrite <- Hid.
    apply list_elem_of_fmap. by exists t.
Qed.

Lemma load_scheduled_tasks_jobs_witness :
  emapM from_dict (config_tasks world_b) = inr [task_b] ∧
  NoDup (id <$> [task_b]) ∧
  ∃ w',
    App.load_scheduled_tasks strict_trigger_error world_b = (inr tt, w') ∧
    jobs w' !! "b" = Some (job_of task_b "0" "*" "*" "*" "*").
Proof.
  assert (Hnd : NoDup (id <$> [task_b])).
  { apply NoDup_cons. split; [apply not_elem_of_nil | apply NoDup_nil_2]. }
  split; [exact world_b_tasks | split; [exact Hnd |]].
  destruct (load_scheduled_tasks_jobs strict_trigger_error world_b [task_b]
              world_b_tasks Hnd) as (w' & Hl & Hjob & _).
  exists w'. split; [exact Hl |].
  apply (Hjob task_b (mkTrigger "0" "*" "*" "*" "*"));
    [left | reflexivity | reflexivity].
Defined.

(** ** [App.add_task] and [App.remove_task] *)

Lemma get_cron_schedule_total (f : Form) :
  ∃ cron, App.get_cron_schedule f = inr cron.
Proof. destruct (get_cron_schedule_cases f) as (cron & Hc & _). eauto. Qed.

(** X11: a size field that is not an integer makes [add_task] raise
    [ValueError] before the URL and the schedule are looked at: whatever the
    other fields hold, nothing is stored, nothing is scheduled and no dialog
    is shown. *)
Theorem add_task_bad_size_raises
    (cte : Trigger → option exn) (fresh : string) (w : World) (e : exn) :
  int (width_entry (form w)) = inl e ∨
  ((∃ wd, int (width_entry (form w)) = inr wd) ∧
   int (height_entry (form w)) = inl e) →
  App.add_task cte fresh w = (inl e, w) ∧ ∃ msg, e = ValueError msg.
Proof.
  destruct (get_cron_schedule_total (form w)) as [cron Hc].
  unfold App.add_task, bind, gets, lift. rewrite Hc.
  intros [Hw | [[wd Hw] Hh]]; rewrite Hw.
  - split; [done | by eapply int_raises_ValueError].
  - rewrite Hh. split; [done | by eapply int_raises_ValueError].
Qed.

Lemma add_task_bad_size_raises_witness :
  int (width_entry (form world_wide)) = inl (ValueError
    "invalid literal for int() with base 10: 19 20") ∧
  App.add_task strict_trigger_error "a" world_wide
    = (inl (ValueError "invalid literal for int() with base 10: 19 20"),
       world_wide).
Proof.
  assert (H : int (width_entry (form world_wide)) = inl (ValueError
    "invalid literal for int() with base 10: 19 20")) by (vm_compute; reflexivity).
  split; [exact H |].
  exact (proj1 (add_task_bad_size_raises strict_trigger_error "a" world_wide _
                  (or_introl H))).
Defined.



Lemma last_job_snoc (cte : Trigger → option exn) (ts : list ScreenshotTask)
    (t : ScreenshotTask) (tr : Trigger) :
  enabled t = true → trigger_of cte t = Some tr →
  last_job cte (ts ++ [t]) (id t) = Some (mkJob t tr).
Proof.
  intros He Ht. induction ts as [| t0 ts IH].
  - cbn. by rewrite decide_True, He, Ht.
  - cbn [app last_job]. by rewrite IH.
Qed.

(** Sizes written in decimal digits: on them [int] is the value of the
    digits. *)
Lemma digit_is_plain (c : ascii) (d : Z) :
  digit_of c = Some d →
  isspace c = false ∧ Ascii.eqb c "_" = false ∧ c ≠ "-"%char ∧ c ≠ "+"%char.
Proof.
  destruct c as [[] [] [] [] [] [] [] []]; vm_compute; intros Hd;
    try discriminate Hd; repeat split; discriminate.
Qed.

Lemma rev_app_rev_app (s a b : string) :
  String.rev_app (String.rev_app s a) b = String.rev_app a (s +:+ b).
Proof.
  revert a b. induction s as [| c s IH]; intros a b; [reflexivity |].
  cbn [String.rev_app]. by rewrite IH.
Qed.

Lemma string_app_nil_r (s : string) : s +:+ "" = s.
Proof.
  induction s as [| c s IH]; [reflexivity |].
  change (String c s +:+ "") with (String c (s +:+ "")). by rewrite IH.
Qed.

Lemma lstrip_rev_digits (s t : string) (acc n : Z) :
  decimal_digits acc s = Some n → lstrip t = t →
  lstrip (String.rev_app s t) = String.rev_app s t.
Proof.
  revert t acc. induction s as [| c s IH]; intros t acc Hs Ht; [exact Ht |].
  cbn [decimal_digits] in Hs. destruct (digit_of c) as [d |] eqn:Hd; [| done].
  cbn [String.rev_app]. apply (IH _ _ Hs).
  cbn [lstrip]. by rewrite (proj1 (digit_is_plain c d Hd)).
Qed.

Lemma strip_digits (s : string) (acc n : Z) :
  decimal_digits acc s = Some n → strip s = s.
Proof.
  intros Hs. unfold strip.
  assert (Hl : lstrip s = s).
  { destruct s as [| c s']; [reflexivity |]. cbn [decimal_digits] in Hs.
    destruct (digit_of c) as [d |] eqn:Hd; [| done].
    cbn [lstrip]. by rewrite (proj1 (digit_is_plain c d Hd)). }
  rewrite Hl. unfold String.rev at 2.
  rewrite (lstrip_rev_digits s "" acc n Hs eq_refl).
  unfold String.rev. rewrite rev_app_rev_app. cbn [String.rev_app].
  apply string_app_nil_r.
Qed.

Lemma int_digits_decimal (s : string) (acc n : Z) :
  decimal_digits acc s = Some n → int_digits acc true s = Some n.
Proof.
  revert acc. induction s as [| c s IH]; intros acc Hs; [exact Hs |].
  cbn [decimal_digits] in Hs. destruct (digit_of c) as [d |] eqn:Hd; [| done].
  cbn [int_digits].
  rewrite (proj1 (proj2 (digit_is_plain c d Hd))), Hd. by apply IH.
Qed.

Lemma int_decimal (s : string) (n : Z) : decimal s = Some n → int s = inr n.
Proof.
  destruct s as [| c s']; [discriminate |]. unfold decimal. intros Hs.
  unfold int. rewrite (strip_digits _ _ _ Hs).
  cbn [decimal_digits] in Hs. destruct (digit_of c) as [d |] eqn:Hd; [| done].
  destruct (digit_is_plain c d Hd) as (_ & Hu & Hm & Hp).
  assert (Hbody : int_digits 0 false (String c s') = Some n).
  { cbn [int_digits]. rewrite Hu, Hd. by apply int_digits_decimal. }
  destruct c as [[] [] [] [] [] [] [] []]; try done;
    rewrite Hbody; f_equal; lia.
Qed.

(** With a schedule of the menu, and for Custom an hour and a minute of the
    two menus, [get_cron_schedule] gives a well-formed cron string. *)
Lemma menu_schedule_ok (f : Form) :
  (schedule_option f = "Custom" →
   hour_spinbox f ∈ hour_values ∧ minute_spinbox f ∈ minute_values) →
  ∃ cron, App.get_cron_schedule f = inr cron ∧ cron_ok cron = true.
Proof.
  intros Hmenu. destruct (decide (schedule_option f = "Custom")) as [Ho | Ho].
  - destruct (Hmenu Ho) as [(h & Hh & Hhr%elem_of_seqZ)%list_elem_of_fmap
                              (m & Hm & Hmr%elem_of_seqZ)%list_elem_of_fmap].
    exists (custom_cron h m). split.
    + rewrite (get_cron_schedule_custom f h m Ho); rewrite ?Hh, ?Hm;
        try (apply int_two_digits; lia).
      by rewrite !Z.mod_small by lia.
    + pose proof (custom_cron_in_range h m ltac:(lia) ltac:(lia)) as Hok.
      unfold custom_cron_checked in Hok.
      by repeat (apply andb_prop in Hok as [Hok _]).
  - unfold App.get_cron_schedule.
    repeat (case_decide; [eexists; split; reflexivity |]).
    rewrite decide_False by done. eexists; split; reflexivity.
Qed.

Lemma add_task_success
    (cte : Trigger → option exn) (fresh : string) (w : World)
    (ts : list ScreenshotTask) (cron : string) (wd ht : Z) :
  strip (url_entry (form w)) ≠ "" →
  App.get_cron_schedule (form w) = inr cron → cron ≠ "Invalid" →
  int (width_entry (form w)) = inr wd →
  int (height_entry (form w)) = inr ht →
  emapM from_dict (config_tasks w) = inr ts →
  let f := form w in
  ∃ task w',
    (id task = fresh ∧ url task = strip (url_entry f) ∧
     cron_schedule task = cron ∧ width task = wd ∧ height task = ht ∧
     full_page task = full_page_var f ∧ enabled task = true ∧
     (output_path_entry f ≠ "" → output_path task = output_path_entry f)) ∧
    App.add_task cte fresh w = (inr tt, w') ∧
    ConfigManager.get_tasks w' = (inr (ts ++ [task]), w') ∧
    disk_tasks w' = config_tasks w' ∧
    (∀ k, jobs w' !! k = jobs_after_load cte (ts ++ [task]) (jobs w) k) ∧
    (∀ tr, trigger_of cte task = Some tr →
           jobs w' !! fresh = Some (mkJob task tr)) ∧
    form w' = mkForm "" "Every Hour" "00" "00" (width_entry f) (height_entry f)
                     (output_path_entry f) (full_page_var f) ∧
    dialogs w' = dialogs w ++ ["Success: Task added successfully"] ∧
    capture_lock w' = capture_lock w.
Proof.
  intros Hu Hc Hne Hw Hh Hts f.
  unfold App.add_task, bind, gets, lift. rewrite Hc, Hw, Hh.
  case_decide as Hbad; [destruct Hbad; done |]. cbv zeta.
  fold f.
  match goal with
  | |- context [ConfigManager.add_task ?t w] => set (task := t)
  end.
  exists task.
  erewrite add_task_eq by done. cbv zeta.
  match goal with
  | |- context [App.load_scheduled_tasks cte ?w1] =>
      destruct (load_scheduled_tasks_precise cte w1 (ts ++ [task]))
        as (w2 & -> & Hj & (Hc2 & Hd2 & Hl2 & Hf2 & Hh2 & Hdl2) & _);
      [cbn [config_tasks set_disk_tasks set_config_tasks];
       apply get_tasks_after_to_dict |]
  end.
  eexists. split.
  { repeat split; try reflexivity.
    intros Hout. subst task. cbn [output_path]. by rewrite decide_False. }
  split; [reflexivity |].
  cbn [config_tasks disk_tasks jobs set_disk_tasks set_config_tasks] in Hc2, Hd2, Hj.
  cbn [capture_lock form dialogs set_disk_tasks set_config_tasks] in Hl2, Hf2, Hdl2.
  split; [| split; [| split; [| split; [| split; [| split]]]]].
  - rewrite get_tasks_eq.
    cbn [config_tasks set_form set_dialogs App.clear_task_inputs
         App.show_success modify snd fst].
    rewrite Hc2. by rewrite get_tasks_after_to_dict.
  - cbn [config_tasks disk_tasks set_form set_dialogs App.clear_task_inputs
         App.show_success modify snd fst]. congruence.
  - exact Hj.
  - intros tr Htr.
    cbn [jobs set_form set_dialogs App.clear_task_inputs App.show_success
         modify snd fst].
    rewrite Hj. unfold jobs_after_load.
    change fresh with (id task) at 1.
    by rewrite (last_job_snoc cte ts task tr eq_refl Htr).
  - cbn [form set_form set_dialogs App.clear_task_inputs App.show_success
         modify snd fst]. by rewrite Hf2.
  - cbn [dialogs form set_form set_dialogs App.clear_task_inputs
         App.show_success modify snd fst]. by rewrite Hdl2.
  - cbn [capture_lock set_form set_dialogs App.clear_task_inputs
         App.show_success modify snd fst]. by rewrite Hl2.
Qed.

(** X13: the successful path of [add_task].  With a URL that is not blank,
    a schedule of the menu (for Custom, an hour and a minute the two menus
    offer), sizes written in decimal digits (at most 4300 of them, the
    interpreter's limit) and a stored list that loads, [get_cron_schedule]
    gives a well-formed cron string and [add_task] appends one task to the
    stored list and saves it: the task has the fresh id, the stripped URL,
    that cron string, the sizes of the form (their decimal value, not
    range-checked), the form's full-page flag, the output path of the form
    when one is entered, and it is enabled.  [add_task] registers the task's
    job under the fresh id when the trigger constructor accepts the cron
    fields, resets the URL and schedule widgets and shows the success
    dialog; the lock is not touched. *)
Theorem add_task_stores_and_schedules
    (cte : Trigger → option exn) (fresh : string) (w : World)
    (ts : list ScreenshotTask) (wd ht : Z) :
  strip (url_entry (form w)) ≠ "" →
  (schedule_option (form w) = "Custom" →
   hour_spinbox (form w) ∈ hour_values ∧
   minute_spinbox (form w) ∈ minute_values) →
  decimal (width_entry (form w)) = Some wd →
  (String.length (width_entry (form w)) ≤ 4300)%nat →
  decimal (height_entry (form w)) = Some ht →
  (String.length (height_entry (form w)) ≤ 4300)%nat →
  emapM from_dict (config_tasks w) = inr ts →
  let f := form w in
  ∃ cron task w',
    App.get_cron_schedule f = inr cron ∧ cron_ok cron = true ∧
    (id task = fresh ∧ url task = strip (url_entry f) ∧
     cron_schedule task = cron ∧ width task = wd ∧ height task = ht ∧
     full_page task = full_page_var f ∧ enabled task = true ∧
     (output_path_entry f ≠ "" → output_path task = output_path_entry f)) ∧
    App.add_task cte fresh w = (inr tt, w') ∧
    ConfigManager.get_tasks w' = (inr (ts ++ [task]), w') ∧
    disk_tasks w' = config_tasks w' ∧
    (∀ k, jobs w' !! k = jobs_after_load cte (ts ++ [task]) (jobs w) k) ∧
    (∀ tr, trigger_of cte task = Some tr →
           jobs w' !! fresh = Some (mkJob task tr)) ∧
    form w' = mkForm "" "Every Hour" "00" "00" (width_entry f) (height_entry f)
                     (output_path_entry f) (full_page_var f) ∧
    dialogs w' = dialogs w ++ ["Success: Task added successfully"] ∧
    capture_lock w' = capture_lock w.
Proof.
  intros Hu Hmenu Hw _ Hh _ Hts f.
  destruct (menu_schedule_ok f Hmenu) as (cron & Hc & Hok).
  assert (Hne : cron ≠ "Invalid") by (intros ->; discriminate Hok).
  destruct (add_task_success cte fresh w ts cron wd ht Hu Hc Hne
              (int_decimal _ _ Hw) (int_decimal _ _ Hh) Hts)
    as (task & w' & Hrest).
  exists cron, task, w'. split; [exact Hc | split; [exact Hok | exact Hrest]].
Qed.

Lemma add_task_stores_and_schedules_witness :
  strip (url_entry form_a) ≠ "" ∧
  decimal (width_entry form_a) = Some 1920 ∧
  decimal (height_entry form_a) = Some 1080 ∧
  ∃ w',
    App.add_task strict_trigger_error "a" (set_form form_a world0) = (inr tt, w') ∧
    ConfigManager.get_tasks w' = (inr [task_a], w') ∧
    jobs w' !! "a" = Some (job_of task_a "*" "*" "*" "*" "*").
Proof.
  assert (Hu : strip (url_entry (form (set_form form_a world0))) ≠ "")
    by (vm_compute; discriminate).
  assert (Hmenu : schedule_option (form (set_form form_a world0)) = "Custom" →
                  hour_spinbox (form (set_form form_a world0)) ∈ hour_values ∧
                  minute_spinbox (form (set_form form_a world0)) ∈ minute_values)
    by (vm_compute; discriminate).
  assert (Hlw : (String.length (width_entry (form (set_form form_a world0)))
                 ≤ 4300)%nat) by (vm_compute; lia).
  assert (Hlh : (String.length (height_entry (form (set_form form_a world0)))
                 ≤ 4300)%nat) by (vm_compute; lia).
  split; [exact Hu | split; [reflexivity | split; [reflexivity |]]].
  destruct (add_task_stores_and_schedules strict_trigger_error "a"
              (set_form form_a world0) [] 1920 1080 Hu Hmenu
              eq_refl Hlw eq_refl Hlh eq_refl)
    as (cron & task & w' & Hc & _ & Htask & Hadd & Hget & _ & _ & Hjob & _).
  destruct Htask as (Hid & Hurl & Hcron & Hwd & Hht & Hfp & Hen & Hout).
  assert (Htask : task = task_a).
  { destruct task as [i u c p wd' ht' fp en].
    cbn [id url cron_schedule width height full_page enabled output_path] in *.
    subst. unfold task_a. f_equal.
    - vm_compute in Hc. by injection Hc as <-.
    - apply Hout. vm_compute. discriminate. }
  subst task.
  exists w'. split; [exact Hadd | split; [exact Hget |]].
  apply (Hjob (mkTrigger "*" "*" "*" "*" "*")). reflexivity.
Defined.

Lemma load_scheduled_tasks_keeps (cte : Trigger → option exn) (w : World)
    (ts : list ScreenshotTask) :
  emapM from_dict (config_tasks w) = inr ts →
  ∃ w', App.load_scheduled_tasks cte w = (inr tt, w') ∧
        ∀ k, is_Some (jobs w !! k) → is_Some (jobs w' !! k).
Proof.
  intros Hts.
  destruct (load_scheduled_tasks_precise cte w ts Hts) as (w' & Hl & Hj & _).
  exists w'. split; [done |].
  intros k Hk. rewrite Hj. by apply jobs_after_load_keeps.
Qed.

Lemma add_task_keeps_jobs (cte : Trigger → option exn) (fresh : string)
    (w : World) (k : string) :
  is_Some (jobs w !! k) → is_Some (jobs (App.add_task cte fresh w).2 !! k).
Proof.
  intros Hk. unfold App.add_task, bind, gets, lift.
  destruct (App.get_cron_schedule (form w)) as [e | cron]; [done |].
  destruct (int (width_entry (form w))) as [e | wd]; [done |].
  destruct (int (height_entry (form w))) as [e | ht]; [done |].
  case_decide; [done |]. cbv zeta.
  destruct (emapM from_dict (config_tasks w)) as [e | ts] eqn:Hts.
  - unfold ConfigManager.add_task, bind. by rewrite get_tasks_eq, Hts.
  - erewrite add_task_eq by done. cbv zeta.
    match goal with
    | |- context [App.load_scheduled_tasks cte ?w1] =>
        destruct (load_scheduled_tasks_keeps cte w1 (ts ++ [
          mkTask fresh (strip (url_entry (form w))) cron
            (if decide (output_path_entry (form w) = "")
             then home w +:+ "/Documents/Screenshots"
             else output_path_entry (form w)) wd ht (full_page_var (form w)) true]))
          as (w2 & -> & Hkeep);
        [cbn [config_tasks set_disk_tasks set_config_tasks];
         apply get_tasks_after_to_dict |]
    end.
    cbn. by apply Hkeep.
Qed.

Lemma remove_task_keeps_jobs (cte : Trigger → option exn) (task_id : string)
    (w : World) (k : string) :
  is_Some (jobs w !! k) → is_Some (jobs (App.remove_task cte task_id w).2 !! k).
Proof.
  intros Hk. unfold App.remove_task, bind.
  destruct (emapM from_dict (config_tasks w)) as [e | ts] eqn:Hts.
  - unfold ConfigManager.remove_task, bind. by rewrite get_tasks_eq, Hts.
  - erewrite remove_task_eq by done. cbv zeta.
    match goal with
    | |- context [App.load_scheduled_tasks cte ?w1] =>
        destruct (load_scheduled_tasks_keeps cte w1
                    (filter (λ t, id t ≠ task_id) ts))
          as (w2 & -> & Hkeep);
        [cbn [config_tasks set_disk_tasks set_config_tasks];
         apply get_tasks_after_to_dict |]
    end.
    cbn. by apply Hkeep.
Qed.

(** X14: no method of [App] takes a job out of the scheduler: an id that has
    a job keeps one through [schedule_task], [load_scheduled_tasks],
    [add_task] and [remove_task], whatever their arguments and whether they
    return or raise. *)
Theorem job_store_never_shrinks
    (cte : Trigger → option exn) (w : World) (k : string) :
  is_Some (jobs w !! k) →
  (∀ task, is_Some (jobs (App.schedule_task cte task w).2 !! k)) ∧
  is_Some (jobs (App.load_scheduled_tasks cte w).2 !! k) ∧
  (∀ fresh, is_Some (jobs (App.add_task cte fresh w).2 !! k)) ∧
  (∀ task_id, is_Some (jobs (App.remove_task cte task_id w).2 !! k)).
Proof.
  intros Hk. split; [| split; [| split]].
  - intros task.
    destruct (schedule_task_effect cte task w) as (w' & -> & _ & _ & _ & _ & Hkeep).
    by apply Hkeep.
  - destruct (emapM from_dict (config_tasks w)) as [e | ts] eqn:Hts.
    + unfold App.load_scheduled_tasks, bind. by rewrite get_tasks_eq, Hts.
    + destruct (load_scheduled_tasks_keeps cte w ts Hts) as (w' & -> & Hkeep).
      by apply Hkeep.
  - intros fresh. by apply add_task_keeps_jobs.
  - intros task_id. by apply remove_task_keeps_jobs.
Qed.

Lemma job_store_never_shrinks_witness :
  is_Some (jobs world_a !! "a") ∧
  is_Some (jobs (App.remove_task strict_trigger_error "a" world_a).2 !! "a").
Proof.
  assert (H : is_Some (jobs world_a !! "a")).
  { rewrite world_a_job. by eexists. }
  split; [exact H |].
  exact (proj2 (proj2 (proj2
    (job_store_never_shrinks strict_trigger_error world_a "a" H))) "a").
Defined.

(** ** More on the capture threads *)

(** X15: while a thread is between acquire and release, the only step any
    other thread can make is a failed acquire: it ends skipped and the lock
    stays held.  So no thread but the holder ever frees the lock. *)
Theorem only_the_holder_frees_the_lock
    (s : sys) (i j : nat) (t tj tj' : thread) (o : outcome) (w' : World) :
  lock_ok s →
  threads s !! i = Some t → holding t = true →
  j ≠ i → threads s !! j = Some tj →
  thread_step o tj (world s) = Some (tj', w') →
  th_pc tj = AtAcquire ∧ th_pc tj' = Skipped ∧ capture_lock w' = true.
Proof.
  intros (Hfree & _ & Huniq) Hi Hh Hne Hj Hstep.
  assert (Hl : capture_lock (world s) = true).
  { destruct (capture_lock (world s)) eqn:Hl; [done |].
    rewrite (Hfree eq_refl i t Hi) in Hh. discriminate. }
  assert (Hnh : holding tj = false).
  { destruct (holding tj) eqn:Hhj; [| done].
    destruct Hne. eapply Huniq; eauto. }
  apply thread_step_cases in Hstep
    as [(Hpc & Hl' & -> & ->) | [(Hpc & _ & -> & ->) | [(Hpc & -> & ->)
       | [(r & Hpc & _ & -> & ->) | (r & Hpc & Hl' & -> & ->)]]]];
    try congruence;
    try (unfold holding in Hnh; rewrite Hpc in Hnh; discriminate).
  done.
Qed.

Lemma only_the_holder_frees_the_lock_witness :
  lock_ok sys_held ∧
  thread_step Failed (mkThread Scheduled task_a AtAcquire) (world sys_held)
    = Some (mkThread Scheduled task_a Skipped,
            set_stdout [skip_line task_a] (world sys_held)) ∧
  capture_lock (set_stdout [skip_line task_a] (world sys_held)) = true.
Proof.
  assert (Hok : lock_ok sys_held).
  { apply (steps_invariant _ _ sys_held_reachable);
      [by apply lock_ok_init | apply skips_justified_init]. }
  split; [exact Hok | split; [reflexivity |]].
  exact (proj2 (proj2 (only_the_holder_frees_the_lock sys_held 0 2
    (mkThread Manual task_b InAction) (mkThread Scheduled task_a AtAcquire)
    _ Failed _ Hok eq_refl eq_refl ltac:(discriminate) eq_refl eq_refl))).
Defined.

Lemma length_filter_insert {A : Type} (f : A → bool)
    (l : list A) (i : nat) (x y : A) :
  l !! i = Some x →
  (length (filter (λ a, f a = true) (<[i := y]> l)) + (if f x then 1 else 0)
   = length (filter (λ a, f a = true) l) + (if f y then 1 else 0))%nat.
Proof.
  revert i. induction l as [| z l IH]; intros [| i] Hi; try discriminate.
  - injection Hi as ->. change (<[0%nat := y]> (x :: l)) with (y :: l).
    rewrite !filter_cons.
    destruct (f x), (f y); repeat case_decide; try done; cbn [length]; lia.
  - change (<[S i := y]> (z :: l)) with (z :: <[i := y]> l).
    change ((z :: l) !! S i) with (l !! i) in Hi.
    rewrite !filter_cons. specialize (IH i Hi).
    destruct (f x), (f y); case_decide; cbn [length]; lia.
Qed.

Lemma step_output (s s' : sys) :
  step s s' →
  ∃ lines,
    stdout (world s') = stdout (world s) ++ lines ∧
    (skipped_count s' ≤ skipped_count s + length lines)%nat ∧
    (∀ i t, threads s' !! i = Some t → th_pc t = Skipped →
       threads s !! i = Some t ∨ skip_line (th_task t) ∈ lines) ∧
    only_lock_and_output_differ (world s) (world s').
Proof.
  unfold skipped_count.
  intros [i t t' o w' Hi Hstep | from task]; cbn [world threads].
  - pose proof (length_filter_insert is_skipped (threads s) i t t' Hi) as Hlen.
    assert (Hcases :
      (th_pc t' ≠ Skipped ∧ stdout w' = stdout (world s)) ∨
      (t' = at_pc t Skipped ∧
       stdout w' = stdout (world s) ++ [skip_line (th_task t)])).
    { apply thread_step_cases in Hstep
        as [(_ & _ & -> & ->) | [(_ & _ & -> & ->) | [(_ & -> & ->)
           | [(r & _ & _ & -> & ->) | (r & _ & _ & -> & ->)]]]];
        first [by right | by left]. }
    assert (Hframe : only_lock_and_output_differ (world s) w').
    { apply thread_step_cases in Hstep
        as [(_ & _ & -> & ->) | [(_ & _ & -> & ->) | [(_ & -> & ->)
           | [(r & _ & _ & -> & ->) | (r & _ & _ & -> & ->)]]]]; done. }
    destruct Hcases as [[Hpc Hout] | [-> Hout]].
    + exists []. rewrite app_nil_r. split; [done |].
      assert (Ht' : is_skipped t' = false)
        by (unfold is_skipped; destruct (th_pc t'); done).
      rewrite Ht' in Hlen. split; [destruct (is_skipped t); cbn [length]; lia |].
      split; [| done].
      intros k tk [(<- & <- & _) | (_ & Hk)]%list_lookup_insert_Some Hk';
        [done | by left].
    + exists [skip_line (th_task t)]. split; [done |].
      split; [destruct (is_skipped t), (is_skipped (at_pc t Skipped));
              cbn [length]; lia |].
      split; [| done].
      intros k tk [(<- & <- & _) | (_ & Hk)]%list_lookup_insert_Some Hk';
        [right; cbn [at_pc th_task]; apply list_elem_of_singleton; done
        | by left].
  - exists []. rewrite app_nil_r. split; [done |].
    split; [| split; [| done]].
    + rewrite filter_app, length_app.
      rewrite filter_cons. case_decide; [discriminate |]. cbn. lia.
    + intros k tk [Hk | (_ & Hk)]%lookup_app_Some Hpc; [by left |].
      apply list_lookup_singleton_Some in Hk as [_ <-]. discriminate.
Qed.

(** X16: in every run of the capture threads the output only grows, every
    attempt that ends skipped in the run has its "already in progress" line
    among the lines printed in the run, which are at least as many as the
    attempts skipped in the run, and the threads change nothing but the
    lock and the output (the stored list, the file, the job store, the form
    and the dialogs are as before). *)
Theorem skipped_attempts_are_reported (s s' : sys) :
  rtc step s s' →
  ∃ lines,
    stdout (world s') = stdout (world s) ++ lines ∧
    (skipped_count s' ≤ skipped_count s + length lines)%nat ∧
    (∀ i t, threads s' !! i = Some t → th_pc t = Skipped →
       threads s !! i = Some t ∨ skip_line (th_task t) ∈ lines) ∧
    only_lock_and_output_differ (world s) (world s').
Proof.
  induction 1 as [s | s s1 s2 Hstep _ IH].
  { exists []. rewrite app_nil_r. repeat split; [cbn; lia | by left]. }
  destruct (step_output _ _ Hstep) as (l1 & Hout1 & Hlen1 & Hmem1 & Hframe1).
  destruct IH as (l2 & Hout2 & Hlen2 & Hmem2 & Hframe2).
  exists (l1 ++ l2). split; [by rewrite Hout2, Hout1, app_assoc |].
  split; [rewrite length_app; lia |]. split.
  - intros i t Hi Hpc. rewrite elem_of_app.
    destruct (Hmem2 i t Hi Hpc) as [Hi1 | Hin]; [| by right; right].
    destruct (Hmem1 i t Hi1 Hpc) as [Hi0 | Hin]; [by left | by right; left].
  - unfold only_lock_and_output_differ in *.
    destruct Hframe1 as (? & ? & ? & ? & ? & ?),
             Hframe2 as (? & ? & ? & ? & ? & ?).
    repeat split; congruence.
Qed.

Lemma skipped_attempts_are_reported_witness :
  rtc step (mkSys world0 []) sys_one_runs ∧
  skip_line task_a ∈ stdout (world sys_one_runs) ∧
  config_tasks (world sys_one_runs) = config_tasks world0.
Proof.
  assert (Hrun : rtc step (mkSys world0 []) sys_one_runs).
  { eapply rtc_l; [apply (step_spawn _ Manual task_a) |]; cbn.
    eapply rtc_l; [apply (step_spawn _ Scheduled task_a) |]; cbn.
    thread_steps 0%nat Succeeded. thread_steps 1%nat Succeeded.
    apply rtc_refl. }
  split; [exact Hrun |].
  destruct (skipped_attempts_are_reported _ _ Hrun)
    as (lines & Hout & _ & Hmem & Hframe).
  split; [| exact (proj1 Hframe)].
  rewrite Hout.
  destruct (Hmem 1%nat (mkThread Scheduled task_a Skipped) eq_refl eq_refl)
    as [Hold | Hin]; [discriminate Hold | exact Hin].
Defined.

(** ** The capture itself *)

Section CaptureFacts.

Variable fails : call → option exn.
Variable joinpath : string → string → string.
Variable parent : string → string.

Ltac run_capture_cases :=
  unfold capture, btry_finally, btry_except, close_quietly, bbind, await,
    bmodify, bprint, set_locals, bret, main_calls; cbn;
  destruct (fails PlaywrightStart) eqn:?; cbn;
  [| destruct (fails Launch) eqn:?; cbn;
     [| destruct (fails NewPage) eqn:?; cbn;
        [| destruct (fails (SetViewportSize _ _)) eqn:?; cbn;
           [| destruct (fails (Goto _)) eqn:?; cbn;
              [| destruct (fails (Mkdir _)) eqn:?; cbn;
                 [| destruct (fails (Screenshot _ _)) eqn:?; cbn]]]]]];
  try (destruct (fails PageClose) eqn:?; cbn);
  try (destruct (fails BrowserClose) eqn:?; cbn);
  try (destruct (fails PlaywrightStop) eqn:?; cbn).

Lemma capture_outcome (task : ScreenshotTask) (timestamp : string) (b : Session) :
  ∃ ok b' n,
    capture fails joinpath parent task timestamp b = (inr ok, b') ∧
    (ok = true ↔
     ∀ c, c ∈ main_calls joinpath parent task timestamp → fails c = None) ∧
    calls b' = calls b ++ take n (main_calls joinpath parent task timestamp)
                       ++ closing_calls (playwright b') (browser b') (page b') ∧
    ((1 ≤ n ≤ 7)%nat ∧
     (∀ c, c ∈ take (n - 1) (main_calls joinpath parent task timestamp) →
           fails c = None)) ∧
    ((playwright b' = true ↔ fails PlaywrightStart = None) ∧
     (browser b' = true ↔ fails PlaywrightStart = None ∧ fails Launch = None) ∧
     (page b' = true ↔
      fails PlaywrightStart = None ∧ fails Launch = None ∧ fails NewPage = None)) ∧
    status_label b' = status_label b.
Proof.
  run_capture_cases;
    eexists _, _;
    first [ exists 1%nat; split; [reflexivity |]; split; [| split; [cbn; by rewrite <- ?app_assoc |]]
          | exists 2%nat; split; [reflexivity |]; split; [| split; [cbn; by rewrite <- ?app_assoc |]]
          | exists 3%nat; split; [reflexivity |]; split; [| split; [cbn; by rewrite <- ?app_assoc |]]
          | exists 4%nat; split; [reflexivity |]; split; [| split; [cbn; by rewrite <- ?app_assoc |]]
          | exists 5%nat; split; [reflexivity |]; split; [| split; [cbn; by rewrite <- ?app_assoc |]]
          | exists 6%nat; split; [reflexivity |]; split; [| split; [cbn; by rewrite <- ?app_assoc |]]
          | exists 7%nat; split; [reflexivity |]; split; [| split; [cbn; by rewrite <- ?app_assoc |]] ];
    lazymatch goal with
    | |- (_ = true ↔ _) =>
        split;
        [ try discriminate; intros _ c Hc;
          rewrite !elem_of_cons, elem_of_nil in Hc;
          intuition congruence
        | intros Hall; try reflexivity; exfalso;
          match goal with
          | H : fails ?c = Some _ |- _ =>
              rewrite Hall in H; [discriminate |];
              rewrite !elem_of_cons; tauto
          end ]
    | |- _ =>
        split;
        [ split; [lia |]; intros c Hc; cbn in Hc;
          rewrite ?elem_of_cons, ?elem_of_nil in Hc; intuition congruence
        | split; [cbn; intuition congruence | reflexivity] ]
    end.
Qed.

(** X17: [capture] never raises: whatever call on the browser or the file
    system fails, and whether or not the closing calls fail, it returns, and
    it returns [True] exactly when none of its seven calls before the
    [finally] clause failed. *)
Theorem capture_returns_success_flag
    (task : ScreenshotTask) (timestamp : string) (b : Session) :
  ∃ ok b',
    capture fails joinpath parent task timestamp b = (inr ok, b') ∧
    (ok = true ↔
     ∀ c, c ∈ main_calls joinpath parent task timestamp → fails c = None).
Proof.
  destruct (capture_outcome task timestamp b) as (ok & b' & n & Hc & Hok & _).
  by exists ok, b'.
Qed.

(** X18: [capture] closes what it opened.  The calls it makes are the first
    [n] of its seven main calls, all but possibly the last of them
    successful (so it stops at the first that fails, and takes the
    screenshot only after the page has loaded), followed by the closing
    calls, the page first, then the browser, then the library; a closing
    call is made exactly for each of the three that was obtained, and a
    closing call that fails does not stop the ones after it. *)
Theorem capture_closes_what_it_opened
    (task : ScreenshotTask) (timestamp : string) (b : Session) :
  ∃ ok b' n,
    capture fails joinpath parent task timestamp b = (inr ok, b') ∧
    calls b' = calls b ++ take n (main_calls joinpath parent task timestamp)
                       ++ closing_calls (playwright b') (browser b') (page b') ∧
    ((1 ≤ n ≤ 7)%nat ∧
     (∀ c, c ∈ take (n - 1) (main_calls joinpath parent task timestamp) →
           fails c = None)) ∧
    ((playwright b' = true ↔ fails PlaywrightStart = None) ∧
     (browser b' = true ↔ fails PlaywrightStart = None ∧ fails Launch = None) ∧
     (page b' = true ↔
      fails PlaywrightStart = None ∧ fails Launch = None ∧ fails NewPage = None)).
Proof.
  destruct (capture_outcome task timestamp b)
    as (ok & b' & n & Hc & _ & Hcalls & Hpre & Hloc & _).
  by exists ok, b', n.
Qed.

(** X19: [capture_task] never raises and leaves the verdict in the status
    label: the "successful" text for the task's URL when none of the seven
    main calls failed, the "failed" text otherwise. *)
Theorem capture_task_reports_the_outcome
    (task : ScreenshotTask) (timestamp : string) (b : Session) :
  ∃ b',
    capture_task fails joinpath parent task timestamp b = (inr tt, b') ∧
    ((∀ c, c ∈ main_calls joinpath parent task timestamp → fails c = None) →
     status_label b' = "✅ Capture successful: " +:+ url task) ∧
    ((∃ c, c ∈ main_calls joinpath parent task timestamp ∧ fails c ≠ None) →
     status_label b' = "❌ Capture failed: " +:+ url task).
Proof.
  unfold capture_task, bbind, set_status, bmodify.
  match goal with
  | |- context [capture fails joinpath parent task timestamp ?b0] =>
      destruct (capture_outcome task timestamp b0) as (ok & b1 & n & -> & Hok & _)
  end.
  destruct ok; eexists; (split; [reflexivity |]); cbn; split; try done.
  - intros (c & Hin & Hc). destruct Hc. by apply Hok.
  - intros Hall. apply Hok in Hall. discriminate.
Qed.

End CaptureFacts.

Lemma capture_task_reports_the_outcome_witness :
  (∃ c, c ∈ main_calls posix_join (λ p, p) task_a "20240101_101500" ∧
        goto_fails c ≠ None) ∧
  ∃ b',
    capture_task goto_fails posix_join (λ p, p) task_a "20240101_101500" session0
      = (inr tt, b') ∧
    status_label b' = "❌ Capture failed: http://a.example".
Proof.
  assert (H : ∃ c, c ∈ main_calls posix_join (λ p, p) task_a "20240101_101500" ∧
                   goto_fails c ≠ None).
  { exists (Goto "http://a.example"). split; [| discriminate].
    unfold main_calls. rewrite !elem_of_cons. tauto. }
  split; [exact H |].
  destruct (capture_task_reports_the_outcome goto_fails posix_join (λ p, p)
              task_a "20240101_101500" session0) as (b' & Hrun & _ & Hfail).
  exists b'. split; [exact Hrun | exact (Hfail H)].
Defined.

(** ** The settings *)

(** X20: pressing the dark-mode button twice gives back the appearance mode
    (from Dark or from Light); after each press the stored flag says whether
    the mode is Dark and the file holds the same flag; the output directory
    and the task list of the configuration are not touched. *)
Theorem toggle_dark_mode_twice (d : Desktop) :
  appearance_mode d = "Dark" ∨ appearance_mode d = "Light" →
  let d1 := Settings.toggle_dark_mode d in
  let d2 := Settings.toggle_dark_mode d1 in
  appearance_mode d1 ≠ appearance_mode d ∧
  appearance_mode d2 = appearance_mode d ∧
  dark_mode d1 = Some (bool_decide (appearance_mode d1 = "Dark")) ∧
  dark_mode d2 = Some (bool_decide (appearance_mode d = "Dark")) ∧
  disk_dark_mode d1 = dark_mode d1 ∧ disk_dark_mode d2 = dark_mode d2 ∧
  output_directory d2 = output_directory d ∧
  config_tasks (base d2) = config_tasks (base d).
Proof.
  unfold Settings.toggle_dark_mode, Settings.save_config.
  intros [E | E]; cbn; rewrite E; cbn; repeat split; done.
Qed.

Lemma toggle_dark_mode_twice_witness :
  appearance_mode desktop0 = "Dark" ∧
  appearance_mode (Settings.toggle_dark_mode desktop0) = "Light" ∧
  appearance_mode
    (Settings.toggle_dark_mode (Settings.toggle_dark_mode desktop0)) = "Dark".
Proof.
  split; [reflexivity | split; [reflexivity |]].
  exact (proj1 (proj2 (toggle_dark_mode_twice desktop0 (or_introl eq_refl)))).
Defined.

(** X21: the dark-mode choice survives a restart: a start that reads the
    file written by [toggle_dark_mode] comes up in the mode the toggle set,
    whatever the appearance was before; and a file without the key comes up
    Dark. *)
Theorem dark_mode_survives_restart (d d0 : Desktop) :
  (disk_dark_mode d0 = disk_dark_mode (Settings.toggle_dark_mode d) →
   appearance_mode (Settings.load_saved_config (Settings.load_config d0))
   = appearance_mode (Settings.toggle_dark_mode d)) ∧
  (disk_dark_mode d0 = None →
   appearance_mode (Settings.load_saved_config (Settings.load_config d0))
   = "Dark").
Proof.
  unfold Settings.load_saved_config, Settings.load_config,
    Settings.toggle_dark_mode, Settings.save_config.
  cbn. split; intros ->; cbn; [| done].
  by destruct (decide (appearance_mode d = "Dark")).
Qed.

Lemma dark_mode_survives_restart_witness :
  appearance_mode
    (Settings.load_saved_config
       (Settings.load_config (Settings.toggle_dark_mode desktop0)))
  = "Light".
Proof.
  exact (proj1 (dark_mode_survives_restart desktop0
                  (Settings.toggle_dark_mode desktop0)) eq_refl).
Defined.

(** X22: [save_settings] with an empty output path entry does nothing at
    all (no dialog either); with a path it stores the path in the
    configuration and the file and shows the success dialog, and a start
    that reads that file puts the path back into the entry. *)
Theorem save_settings_round_trip (d : Desktop) :
  let entry := output_path_entry (form (base d)) in
  (entry = "" → Settings.save_settings d = d) ∧
  (entry ≠ "" →
   let d1 := Settings.save_settings d in
   output_directory d1 = Some entry ∧
   disk_output_directory d1 = Some entry ∧
   dialogs (base d1) = dialogs (base d) ++ ["Success: Settings saved"] ∧
   dark_mode d1 = dark_mode d ∧
   ∀ d0, disk_output_directory d0 = disk_output_directory d1 →
         output_path_entry
           (form (base (Settings.load_saved_config (Settings.load_config d0))))
         = entry).
Proof.
  unfold Settings.save_settings. cbv zeta. split; intros He.
  - by rewrite decide_True.
  - rewrite decide_False by done. cbn. repeat split; try done.
    intros d0 ->. reflexivity.
Qed.

Lemma save_settings_round_trip_witness :
  output_path_entry (form (base desktop_shots)) ≠ "" ∧
  output_directory (Settings.save_settings desktop_shots) = Some "/shots".
Proof.
  assert (H : output_path_entry (form (base desktop_shots)) ≠ "")
    by discriminate.
  split; [exact H |].
  exact (proj1 (proj2 (save_settings_round_trip desktop_shots) H)).
Defined.
